(** * npc-vortex-extension: the endpoint-registration dispatcher

    A shallow embedding of [registerNpcApi] (src/index.ts, lines 31-62)
    together with the collaborators it calls: Node's [path.join], the zod
    schemas [z.string()], [callbackSchema] and [npcApiSchema], the endpoint
    factory [create] of @toebean/npc and the Vortex logger [log]. *)

From Stdlib Require Import List String Ascii Bool Arith ZArith Lia.
Import ListNotations.
Open Scope string_scope.
Open Scope list_scope.

Set Implicit Arguments.
Set Warnings "-register-all".

(* ================================================================== *)
(** ** Node's [path] module

    [import { join } from "path"] resolves to [path.posix.join] or to
    [path.win32.join] according to the platform the process runs on
    (Vortex is a Windows application).  The module is not part of the
    repository; both variants are modelled after the algorithm of Node's
    lib/path.js (as of Node 18): the arguments of non-zero length are
    glued with the platform separator and the result is normalized.
    [normalizeString] is written over the separator-delimited segments of
    the path rather than over character indices: an empty or "." segment
    is skipped, ".." removes the previous ordinary segment (or is kept,
    when the path is relative and nothing is left to remove), any other
    segment is appended.  Strings are sequences of 8-bit characters. *)
(* ================================================================== *)

Module Path.

Inductive platform : Type := posix | win32.

Definition chars := list ascii.

Definition CHAR_FORWARD_SLASH : ascii := "/".
Definition CHAR_BACKWARD_SLASH : ascii := "\".
Definition CHAR_DOT : ascii := ".".
Definition CHAR_COLON : ascii := ":".

Definition isPosixPathSeparator (c : ascii) : bool :=
  Ascii.eqb c CHAR_FORWARD_SLASH.

Definition isPathSeparator (c : ascii) : bool :=
  Ascii.eqb c CHAR_FORWARD_SLASH || Ascii.eqb c CHAR_BACKWARD_SLASH.

(** A-Z or a-z. *)
Definition isWindowsDeviceRoot (c : ascii) : bool :=
  let n := nat_of_ascii c in
  ((65 <=? n)%nat && (n <=? 90)%nat) || ((97 <=? n)%nat && (n <=? 122)%nat).

Definition chars_eqb (a b : chars) : bool :=
  String.eqb (string_of_list_ascii a) (string_of_list_ascii b).

Definition is_empty {A : Type} (s : list A) : bool :=
  match s with [] => true | _ => false end.

(** The maximal segments of [path] between separators; a path of n
    separators has n+1 segments, some of them possibly empty. *)
Fixpoint segments (isSep : ascii -> bool) (path : chars) : list chars :=
  match path with
  | [] => [[]]
  | c :: rest =>
      if isSep c then [] :: segments isSep rest
      else match segments isSep rest with
           | seg :: segs => (c :: seg) :: segs
           | [] => [[c]]
           end
  end.

(** [res] with its last segment removed. *)
Definition pop (res : list chars) : list chars := removelast res.

Definition last_is_dotdot (res : list chars) : bool :=
  match rev res with
  | seg :: _ => chars_eqb seg [CHAR_DOT; CHAR_DOT]
  | [] => false
  end.

(** One separator-terminated segment of the loop of [normalizeString]. *)
Definition normalizeStep (allowAboveRoot : bool) (res : list chars)
  (seg : chars) : list chars :=
  if is_empty seg || chars_eqb seg [CHAR_DOT] then res
  else if chars_eqb seg [CHAR_DOT; CHAR_DOT] then
    if negb (is_empty res) && negb (last_is_dotdot res) then pop res
    else if allowAboveRoot then res ++ [[CHAR_DOT; CHAR_DOT]]
    else res
  else res ++ [seg].

Fixpoint intercalate (sep : ascii) (segs : list chars) : chars :=
  match segs with
  | [] => []
  | [seg] => seg
  | seg :: rest => seg ++ sep :: intercalate sep rest
  end.

Definition normalizeString (path : chars) (allowAboveRoot : bool)
  (separator : ascii) (isSep : ascii -> bool) : chars :=
  intercalate separator
    (fold_left (normalizeStep allowAboveRoot) (segments isSep path) []).

Definition first_char (isC : ascii -> bool) (path : chars) : bool :=
  match path with c :: _ => isC c | [] => false end.

Definition last_char (isC : ascii -> bool) (path : chars) : bool :=
  first_char isC (rev path).

(** [path.posix.normalize]. *)
Definition posix_normalize (path : chars) : chars :=
  if is_empty path then [CHAR_DOT] else
  let isAbsolute := first_char isPosixPathSeparator path in
  let trailingSeparator := last_char isPosixPathSeparator path in
  let path' :=
    normalizeString path (negb isAbsolute) CHAR_FORWARD_SLASH
      isPosixPathSeparator in
  if is_empty path' then
    if isAbsolute then [CHAR_FORWARD_SLASH]
    else if trailingSeparator then [CHAR_DOT; CHAR_FORWARD_SLASH]
    else [CHAR_DOT]
  else
    let path'' :=
      if trailingSeparator then path' ++ [CHAR_FORWARD_SLASH] else path' in
    if isAbsolute then CHAR_FORWARD_SLASH :: path'' else path''.

(** The arguments of non-zero length, glued with [sep]; [None] when there
    is none ([joined === undefined]). *)
Definition glue (sep : ascii) (args : list chars) : option chars :=
  match filter (fun a => negb (is_empty a)) args with
  | [] => None
  | parts => Some (intercalate sep parts)
  end.

(** [path.posix.join]. *)
Definition posix_join (args : list chars) : chars :=
  match glue CHAR_FORWARD_SLASH args with
  | None => [CHAR_DOT]
  | Some joined => posix_normalize joined
  end.

(** [span p l]: the longest prefix of [l] whose characters satisfy [p],
    and what follows it. *)
Fixpoint span (p : ascii -> bool) (l : chars) : chars * chars :=
  match l with
  | c :: rest =>
      if p c then let (a, b) := span p rest in (c :: a, b) else ([], l)
  | [] => ([], [])
  end.

Definition notSep (c : ascii) : bool := negb (isPathSeparator c).

(** The outcome of the root matching of [path.win32.normalize]. *)
Inductive win32_root : Type :=
| RootOnly (normalized : chars)
    (* a UNC root and nothing else: returned as it is *)
| Root (device : option chars) (isAbsolute : bool) (afterRoot : chars).

Definition win32_match_root (path : chars) : win32_root :=
  match path with
  | c0 :: c1 :: rest2 =>
      if isPathSeparator c0 then
        if isPathSeparator c1 then
          (* possible UNC root *)
          let (firstPart, r1) := span notSep rest2 in
          if negb (is_empty r1) && negb (is_empty firstPart) then
            let (_, r2) := span isPathSeparator r1 in
            if negb (is_empty r2) then
              let (secondPart, r3) := span notSep r2 in
              let unc :=
                CHAR_BACKWARD_SLASH :: CHAR_BACKWARD_SLASH :: firstPart
                  ++ CHAR_BACKWARD_SLASH :: secondPart in
              if is_empty r3 then RootOnly (unc ++ [CHAR_BACKWARD_SLASH])
              else Root (Some unc) true r3
            else Root None true path
          else Root None true path
        else Root None true (c1 :: rest2)
      else if isWindowsDeviceRoot c0 && Ascii.eqb c1 CHAR_COLON then
        if first_char isPathSeparator rest2
        then Root (Some [c0; c1]) true (tl rest2)
        else Root (Some [c0; c1]) false rest2
      else Root None false path
  | _ => Root None false path
  end.

(** [path.win32.normalize]. *)
Definition win32_normalize (path : chars) : chars :=
  match path with
  | [] => [CHAR_DOT]
  | [c] => if isPosixPathSeparator c then [CHAR_BACKWARD_SLASH] else [c]
  | _ =>
      match win32_match_root path with
      | RootOnly normalized => normalized
      | Root device isAbsolute afterRoot =>
          let tail0 :=
            if is_empty afterRoot then []
            else normalizeString afterRoot (negb isAbsolute)
                   CHAR_BACKWARD_SLASH isPathSeparator in
          let tail1 :=
            if is_empty tail0 && negb isAbsolute then [CHAR_DOT] else tail0 in
          let tail :=
            if negb (is_empty tail1) && last_char isPathSeparator path
            then tail1 ++ [CHAR_BACKWARD_SLASH] else tail1 in
          match device with
          | None => if isAbsolute then CHAR_BACKWARD_SLASH :: tail else tail
          | Some dev =>
              if isAbsolute then dev ++ CHAR_BACKWARD_SLASH :: tail
              else dev ++ tail
          end
      end
  end.

(** The leading-separator bookkeeping of [path.win32.join]: the joined path
    must not start with two separators unless the first argument itself
    starts a UNC path. *)
Definition win32_slashes (firstPart joined : chars) : chars :=
  let sepAt (i : nat) := first_char isPathSeparator (skipn i firstPart) in
  let firstLen := List.length firstPart in
  let '(slashCount, needsReplace) :=
    if sepAt 0 then
      if (1 <? firstLen)%nat && sepAt 1 then
        if (2 <? firstLen)%nat then
          if sepAt 2 then (3, true) else (2, false)
        else (2, true)
      else (1, true)
    else (0, true) in
  if needsReplace then
    let slashCount' :=
      slashCount + List.length (fst (span isPathSeparator (skipn slashCount joined)))
    in
    if (2 <=? slashCount')%nat
    then CHAR_BACKWARD_SLASH :: skipn slashCount' joined
    else joined
  else joined.

(** [path.win32.join]. *)
Definition win32_join (args : list chars) : chars :=
  match filter (fun a => negb (is_empty a)) args with
  | [] => [CHAR_DOT]
  | (firstPart :: _) as parts =>
      win32_normalize
        (win32_slashes firstPart (intercalate CHAR_BACKWARD_SLASH parts))
  end.

(** The separator [join] writes between two segments. *)
Definition sep (pl : platform) : ascii :=
  match pl with
  | posix => CHAR_FORWARD_SLASH
  | win32 => CHAR_BACKWARD_SLASH
  end.

(** [join(...args)] of the module the platform selects. *)
Definition join (pl : platform) (args : list string) : string :=
  let args' := map list_ascii_of_string args in
  string_of_list_ascii
    match pl with
    | posix => posix_join args'
    | win32 => win32_join args'
    end.

(** A character that is no separator on either platform and no colon. *)
Definition plain_char (c : ascii) : bool :=
  negb (isPathSeparator c) && negb (Ascii.eqb c CHAR_COLON).

(** A plain segment: not empty, not "." or "..", of plain characters. *)
Definition plain (cs : chars) : bool :=
  negb (is_empty cs) && negb (chars_eqb cs [CHAR_DOT])
  && negb (chars_eqb cs [CHAR_DOT; CHAR_DOT]) && forallb plain_char cs.

Definition plain_segment (s : string) : bool :=
  plain (list_ascii_of_string s).

Definition is_sep (pl : platform) : ascii -> bool :=
  match pl with
  | posix => isPosixPathSeparator
  | win32 => isPathSeparator
  end.

End Path.

(* ================================================================== *)
(** ** JavaScript values at the boundary

    [registerNpcApi] is registered with Vortex as an extension API and is
    called with untyped arguments, so its parameters are values.  An object
    is the list of its own enumerable properties in the order [for ... in]
    visits them, and inherits the members of [Object.prototype]; [o[k]]
    reads the own property [k] when there is one, and the inherited member
    otherwise.  Functions are identified by a label; numbers are the
    integers. *)
(* ================================================================== *)

Inductive value : Type :=
| VUndefined
| VNull
| VBool (b : bool)
| VNum (n : Z)
| VStr (s : string)
| VFun (f : nat)
| VArr (elems : list value)
| VObj (props : list (string * value)).

Definition props := list (string * value).

Fixpoint lookup (k : string) (o : props) : option value :=
  match o with
  | [] => None
  | (k', v) :: rest => if String.eqb k' k then Some v else lookup k rest
  end.

(** The members of [Object.prototype], which [k in o] and [o[k]] find on
    every object: eleven functions, each with a label of its own, and the
    accessor [__proto__], which answers [Object.prototype] itself, an
    object without enumerable properties. *)
Definition Object_prototype : props :=
  [("constructor", VFun 1000);
   ("__defineGetter__", VFun 1001);
   ("__defineSetter__", VFun 1002);
   ("hasOwnProperty", VFun 1003);
   ("__lookupGetter__", VFun 1004);
   ("__lookupSetter__", VFun 1005);
   ("isPrototypeOf", VFun 1006);
   ("propertyIsEnumerable", VFun 1007);
   ("toString", VFun 1008);
   ("valueOf", VFun 1009);
   ("__proto__", VObj []);
   ("toLocaleString", VFun 1010)].

(** [k] names a member of [Object.prototype]. *)
Definition inherited (k : string) : bool :=
  match lookup k Object_prototype with Some _ => true | None => false end.

(** [o?.[k]] for an object, [undefined] or [null]: the own property [k]
    of an object, else the member of [Object.prototype] of that name,
    else [undefined]; [undefined] when [o] is [undefined] or [null].  Of
    the other values only properties that they do not have are read. *)
Definition get (o : value) (k : string) : value :=
  match o with
  | VObj ps =>
      match lookup k ps with
      | Some v => v
      | None =>
          match lookup k Object_prototype with
          | Some v => v
          | None => VUndefined
          end
      end
  | _ => VUndefined
  end.

(** The condition of [x ? a : b] and the left operand of [&&]. *)
Definition truthy (v : value) : bool :=
  match v with
  | VUndefined | VNull => false
  | VBool b => b
  | VNum n => negb (Z.eqb n 0)
  | VStr s => negb (String.eqb s "")
  | VFun _ | VArr _ | VObj _ => true
  end.

(* ================================================================== *)
(** ** The zod schemas *)
(* ================================================================== *)

Inductive schema : Type := StringSchema | CallbackSchema | NpcApiSchema.

Inductive error : Type :=
| ZodError (s : schema) (input : value)   (* thrown by [schema.parse] *)
| ListenError (reason : value)            (* [npc.listen] rejected *)
| TypeError (subject : value).   (* a property of [undefined] or [null] was read *)

Inductive outcome (A : Type) : Type :=
| Return (a : A)
| Throw (e : error).
Arguments Return {A} a.
Arguments Throw {A} e.

Module Zod.

(** [z.string().parse]: any string, the empty one included. *)
Definition string_parse (v : value) : outcome string :=
  match v with
  | VStr s => Return s
  | _ => Throw (ZodError StringSchema v)
  end.

(** Modelled from the spec: [callbackSchema] of @toebean/npc, a zod
    function schema: a value is a handler when it is invocable.  The
    function that [parse] returns checks its argument and its result and
    otherwise behaves like the input; it keeps the input's label. *)
Definition callbackSchema_parse (v : value) : outcome value :=
  match v with
  | VFun f => Return (VFun f)
  | _ => Throw (ZodError CallbackSchema v)
  end.

(** Modelled from the spec: [npcApiSchema] of @toebean/npc-vortex-api: a
    plain mapping of property names to values, whose reserved property
    [middleware], when present, is itself a plain mapping.  Properties that
    are not handlers pass the schema. *)
Definition npcApiSchema_parse (v : value) : outcome props :=
  match v with
  | VObj ps =>
      match lookup "middleware" ps with
      | None | Some VUndefined | Some (VObj _) => Return ps
      | Some _ => Throw (ZodError NpcApiSchema v)
      end
  | _ => Throw (ZodError NpcApiSchema v)
  end.

(** [schema.safeParse(v).success]: [parse] does not throw. *)
Definition success {A : Type} (parse : value -> outcome A) (v : value)
  : bool :=
  match parse v with Return _ => true | Throw _ => false end.

End Zod.

(* ================================================================== *)
(** ** The collaborators: endpoints, the transport and the logger *)
(* ================================================================== *)

(** [log(level, message, details)]. *)
Record logEntry : Type := LogEntry {
  log_level : string;
  log_message : value;
  log_details : value
}.

(** An event listener, as what a call of it does: it passes entries to
    [log] and returns, or it throws. *)
Definition listener := value -> outcome (list logEntry).

(** Modelled from the spec: the life of an endpoint of @toebean/npc,
    Created, then Listening once the transport has accepted the name
    passed to [listen]; [npc.endpoint] is then that name. *)
Inductive listenState : Type :=
| Created
| Pending (name : string)                    (* [listen] called, not settled *)
| Listening (name : string) (time : nat)
| Failed (reason : value) (time : nat).

Record npc : Type := Npc {
  npc_callback : value;
  npc_middleware : option value;
  npc_on_error : list listener;
  npc_state : listenState
}.

(** The calls the dispatcher can make on its collaborators, endpoints
    being named by their creation index. *)
Inductive call : Type :=
| CallCreate (ep : nat) (callback : value) (middleware : option value)
| CallOn (ep : nat) (event : string)
| CallListen (ep : nat) (name : string)
| CallClose (ep : nat).

Record world : Type := World {
  npcs : list npc;          (* the endpoints the factory has created *)
  calls : list call;        (* the calls made so far, oldest first *)
  logged : list logEntry;   (* what the logger has received *)
  clock : nat               (* the number of settlements so far *)
}.

(** What an [async] function has returned. *)
Inductive promise : Type :=
| Rejected (time : nat) (e : error)
    (* the body threw before its first [await] *)
| AwaitListen (ep : nat)
    (* [await npc.listen(...); return npc.endpoint] *)
| All (time : nat) (ps : list promise).
    (* [return Promise.all(promises)] *)

(** Computations over the world that may throw; [None] only when the
    recursion bound is exhausted. *)
Definition M (A : Type) : Type := world -> option (outcome A * world).

Definition ret {A : Type} (a : A) : M A := fun w => Some (Return a, w).

Definition lift {A : Type} (o : outcome A) : M A := fun w => Some (o, w).

Definition bind {A B : Type} (m : M A) (k : A -> M B) : M B :=
  fun w =>
    match m w with
    | Some (Return a, w') => k a w'
    | Some (Throw e, w') => Some (Throw e, w')
    | None => None
    end.

Notation "x <- m ;; k" := (bind m (fun x => k))
  (at level 61, m at next level, right associativity).
Notation "m ;;; k" := (bind m (fun _ => k))
  (at level 61, right associativity).

(** An [async] function does not throw: an exception of its body rejects
    the promise it returns. *)
Definition async (body : M promise) : M promise :=
  fun w =>
    match body w with
    | Some (Throw e, w') => Some (Return (Rejected (clock w') e), w')
    | r => r
    end.

(** [create(callback)] and [create(callback, middleware)]. *)
Definition create (callback : value) (middleware : option value) : M nat :=
  fun w =>
    let ep := List.length (npcs w) in
    Some (Return ep,
          World (npcs w ++ [Npc callback middleware [] Created])
                (calls w ++ [CallCreate ep callback middleware])
                (logged w) (clock w)).

Definition update (ep : nat) (f : npc -> npc) (l : list npc) : list npc :=
  firstn ep l ++
  match skipn ep l with
  | n :: rest => f n :: rest
  | [] => []
  end.

(** [npc.on(event, handler)]. *)
Definition on (ep : nat) (event : string) (handler : listener) : M unit :=
  fun w =>
    Some (Return tt,
          World (update ep
                   (fun n => Npc (npc_callback n) (npc_middleware n)
                               (npc_on_error n ++ [handler]) (npc_state n))
                   (npcs w))
                (calls w ++ [CallOn ep event]) (logged w) (clock w)).

(** [npc.listen(name)], up to the point where the caller awaits. *)
Definition listen (ep : nat) (name : string) : M unit :=
  fun w =>
    Some (Return tt,
          World (update ep
                   (fun n => Npc (npc_callback n) (npc_middleware n)
                               (npc_on_error n) (Pending name))
                   (npcs w))
                (calls w ++ [CallListen ep name]) (logged w) (clock w)).

(** [v === undefined || v === null]. *)
Definition nullish (v : value) : bool :=
  match v with VUndefined | VNull => true | _ => false end.

(** [(error) => log('warn', error.message, error)].  The arguments are
    evaluated before [log] is called: handed [undefined] or [null], the
    read of [error.message] throws a TypeError and [log] is not reached. *)
Definition errorSink : listener :=
  fun error =>
    if nullish error then Throw (TypeError error)
    else Return [LogEntry "warn" (get error "message") error].

(* ================================================================== *)
(** ** [registerNpcApi] *)
(* ================================================================== *)

Section Dispatcher.

Variable platform : Path.platform.

Definition join (a b : string) : string := Path.join platform [a; b].

Definition isCallback (v : value) : bool :=
  Zod.success Zod.callbackSchema_parse v.

(** The body of [for (const property in api) { ... }], [self] being
    [registerNpcApi]. *)
Fixpoint for_in (self : value -> value -> value -> M promise)
  (namespace : string) (api : props) (properties : list string)
  (promises : list promise) : M (list promise) :=
  match properties with
  | [] => ret promises
  | property :: rest =>
      if negb (isCallback (get (VObj api) property))
      then for_in self namespace api rest promises
      else
        let middleware := get (get (VObj api) "middleware") property in
        p <- (if truthy middleware && isCallback middleware
              then self (VStr (join namespace property))
                     (get (VObj api) property) middleware
              else self (VStr (join namespace property))
                     (get (VObj api) property) VUndefined) ;;
        for_in self namespace api rest (promises ++ [p])
  end.

(** [async function registerNpcApi(pathOrNamespace, callbackOrApi,
    middleware?)]; an argument left out is [undefined].  The function
    calls itself from the loop of the batch form; [fuel] bounds that
    nesting. *)
Fixpoint registerNpcApi (fuel : nat)
  (pathOrNamespace callbackOrApi middleware : value) : M promise :=
  match fuel with
  | O => fun _ => None
  | S fuel' =>
      async (
        pathOrNamespace <- lift (Zod.string_parse pathOrNamespace) ;;
        if isCallback callbackOrApi then
          let path := pathOrNamespace in
          callback <- lift (Zod.callbackSchema_parse callbackOrApi) ;;
          npc <- (if truthy middleware
                  then m <- lift (Zod.callbackSchema_parse middleware) ;;
                       create callback (Some m)
                  else create callback None) ;;
          on npc "error" errorSink ;;;
          listen npc (join "vortex" path) ;;;
          ret (AwaitListen npc)
        else
          let namespace := pathOrNamespace in
          api <- lift (Zod.npcApiSchema_parse callbackOrApi) ;;
          promises <- for_in (registerNpcApi fuel') namespace api
                        (map fst api) [] ;;
          fun w => ret (All (clock w) promises) w)
  end.

End Dispatcher.

(* ================================================================== *)
(** ** After the synchronous part: the transport and the promises

    The dispatcher runs on one thread.  A call of [registerNpcApi] runs up
    to its [await] and returns; later the transport settles the pending
    [listen] calls one at a time, in an order of its own, and an endpoint
    may emit error events. *)
(* ================================================================== *)

Inductive settlement : Type :=
| Accept                      (* the endpoint is now listening *)
| Refuse (reason : value).    (* [listen] rejects with [reason] *)

Definition settle_npc (s : settlement) (time : nat) (n : npc) : npc :=
  match npc_state n with
  | Pending name =>
      Npc (npc_callback n) (npc_middleware n) (npc_on_error n)
        match s with
        | Accept => Listening name time
        | Refuse reason => Failed reason time
        end
  | _ => n
  end.

(** The transport settles the [listen] call of endpoint [ep]. *)
Definition settle (w : world) (ev : nat * settlement) : world :=
  let time := S (clock w) in
  World (update (fst ev) (settle_npc (snd ev) time) (npcs w))
        (calls w) (logged w) time.

(** The transport settles pending calls in the order of [schedule]. *)
Definition run (schedule : list (nat * settlement)) (w : world) : world :=
  fold_left settle schedule w.

(** [emitter.emit(event, err)]: the listeners are called in the order
    they were attached, up to the first that throws; what they have
    logged, and the exception that reaches the emitter, if any. *)
Fixpoint call_listeners (ls : list listener) (err : value)
  : list logEntry * option error :=
  match ls with
  | [] => ([], None)
  | l :: rest =>
      match l err with
      | Return entries =>
          let (more, thrown) := call_listeners rest err in
          (entries ++ more, thrown)
      | Throw e => ([], Some e)
      end
  end.

(** Endpoint [ep] emits an error event.  An exception of a listener
    goes to the emitter, not to the dispatcher. *)
Definition emit_error (ep : nat) (err : value) (w : world) : world :=
  match nth_error (npcs w) ep with
  | Some n =>
      World (npcs w) (calls w)
        (logged w ++ fst (call_listeners (npc_on_error n) err))
        (clock w)
  | None => w
  end.

(** [npc.endpoint]: the name the endpoint listens on, else [undefined]. *)
Definition npc_endpoint (n : npc) : value :=
  match npc_state n with
  | Listening name _ => VStr name
  | _ => VUndefined
  end.

Inductive promiseState : Type :=
| StillPending
| Fulfilled (time : nat) (v : value)
| RejectedAt (time : nat) (e : error).

(** The earliest rejection among the inputs of [Promise.all], the first in
    input order among several of the same instant. *)
Fixpoint first_rejection (sts : list promiseState) : option (nat * error) :=
  match sts with
  | [] => None
  | st :: rest =>
      match st, first_rejection rest with
      | RejectedAt t e, Some (t', e') =>
          if (t <=? t')%nat then Some (t, e) else Some (t', e')
      | RejectedAt t e, None => Some (t, e)
      | _, r => r
      end
  end.

(** The values and the latest fulfilment time, when every input is
    fulfilled. *)
Fixpoint all_fulfilled (time : nat) (sts : list promiseState)
  : option (nat * list value) :=
  match sts with
  | [] => Some (time, [])
  | Fulfilled t v :: rest =>
      match all_fulfilled (Nat.max time t) rest with
      | Some (t', vs) => Some (t', v :: vs)
      | None => None
      end
  | _ :: _ => None
  end.

(** [Promise.all]: rejected as soon as one input is, fulfilled with the
    values in input order once all inputs are. *)
Definition promise_all (time : nat) (sts : list promiseState)
  : promiseState :=
  match first_rejection sts with
  | Some (t, e) => RejectedAt t e
  | None =>
      match all_fulfilled time sts with
      | Some (t, vs) => Fulfilled t (VArr vs)
      | None => StillPending
      end
  end.

(** The state of a promise [registerNpcApi] returned, in world [w]. *)
Fixpoint poll (w : world) (p : promise) : promiseState :=
  match p with
  | Rejected t e => RejectedAt t e
  | AwaitListen ep =>
      match nth_error (npcs w) ep with
      | Some n =>
          match npc_state n with
          | Listening _ t => Fulfilled t (npc_endpoint n)
          | Failed reason t => RejectedAt t (ListenError reason)
          | _ => StillPending
          end
      | None => StillPending
      end
  | All t ps => promise_all t (map (poll w) ps)
  end.

Definition world0 : world := World [] [] [] 0.

(** What happens after the synchronous part: the transport settles a
    [listen] call, or an endpoint emits an error event. *)
Inductive event : Type :=
| Settled (ep : nat) (s : settlement)
| ErrorEvent (ep : nat) (err : value).

Definition step (w : world) (ev : event) : world :=
  match ev with
  | Settled ep s => settle w (ep, s)
  | ErrorEvent ep err => emit_error ep err w
  end.

Definition run_events (evs : list event) (w : world) : world :=
  fold_left step evs w.

(** The state of the promise a call returned, once the transport has gone
    through [schedule]. *)
Definition outcome_of (r : option (outcome promise * world))
  (schedule : list (nat * settlement)) : option promiseState :=
  match r with
  | Some (Return p, w) => Some (poll (run schedule w) p)
  | _ => None
  end.

(** [typeof v === "string"]. *)
Definition isString (v : value) : bool :=
  match v with VStr _ => true | _ => false end.

(* ================================================================== *)
(** ** [createNexusApi]: the Nexus client and its cache (lines 80-97)

    [getNexus] hands the handlers of the Nexus API their client.  The
    client is kept in the variable [nexusApi] of the closure and reused
    while it is validated for the API key of the account in the state;
    otherwise the user is asked to log in and a client is created for the
    key found then.  The state of the application, [ensureLoggedIn],
    [util.getApplication], [util.currentGame] and [Nexus.create] are
    collaborators; one call of [getNexus] is followed from its start to
    its end. *)
(* ================================================================== *)

Module NexusApi.

(** What the inline schema of [getAccount] lets through:
    [{ nexus?: { APIKey?: string } }]. *)
Record nexusAccount : Type := NexusAccount { APIKey : option string }.
Record account : Type := Account { nexus : option nexusAccount }.

Inductive failure : Type :=
| AccountInvalid (input : value)   (* the ZodError of [getAccount] *)
| LoginFailed (reason : value)     (* [ensureLoggedIn] rejected *)
| NoApiKey                         (* [Promise.reject()], no reason *)
| NoGame (reason : value)          (* [util.currentGame] rejected *)
| CreateFailed (reason : value).   (* [Nexus.create] rejected *)

Inductive result (A : Type) : Type :=
| Ok (a : A)
| Err (e : failure).
Arguments Ok {A} a.
Arguments Err {A} e.

(** [z.object({ APIKey: z.string().optional() })] on the value under
    [nexus]. *)
Definition parse_nexus (input n : value) : result nexusAccount :=
  match n with
  | VObj ps =>
      match lookup "APIKey" ps with
      | None | Some VUndefined => Ok (NexusAccount None)
      | Some (VStr key) => Ok (NexusAccount (Some key))
      | Some _ => Err (AccountInvalid input)
      end
  | _ => Err (AccountInvalid input)
  end.

(** [z.object({ nexus: z.object({ ... }).optional() }).parse]. *)
Definition parse_account (input : value) : result account :=
  match input with
  | VObj ps =>
      match lookup "nexus" ps with
      | None | Some VUndefined => Ok (Account None)
      | Some n =>
          match parse_nexus input n with
          | Ok na => Ok (Account (Some na))
          | Err e => Err e
          end
      end
  | _ => Err (AccountInvalid input)
  end.

(** [account.nexus?.APIKey]. *)
Definition apiKey (a : account) : option string :=
  match nexus a with
  | Some n => APIKey n
  | None => None
  end.

(** The truthiness of a [string | undefined]. *)
Definition present (key : option string) : bool :=
  match key with
  | Some k => negb (String.eqb k "")
  | None => false
  end.

(** A client of the Nexus API; [validation_key] is
    [getValidationResult()?.key]. *)
Record client : Type := Client {
  client_id : nat;
  validation_key : option string
}.

(** [a === b] on [string | undefined]. *)
Definition same_key (a b : option string) : bool :=
  match a, b with
  | Some x, Some y => String.eqb x y
  | None, None => true
  | _, _ => false
  end.

Inductive extCall : Type :=
| CallGetApplication
| CallEnsureLoggedIn
| CallCurrentGame
| CallNexusCreate (key name version gameId : string).

Record state : Type := State {
  confidential_account : value;   (* [api.getState().confidential.account] *)
  nexusApi : option client;       (* [let nexusApi: Nexus | undefined] *)
  trace : list extCall            (* the collaborators called, oldest first *)
}.

(** How a call of [getNexus] ends: it throws before returning a promise,
    or the promise it returns is resolved or rejected. *)
Inductive answer : Type :=
| Thrown (e : failure)
| Resolved (c : client)
| RejectedWith (e : failure).

Section GetNexus.

(** [util.getApplication()]: the name and the version. *)
Variable app_name app_version : string.

(** [api.ext.ensureLoggedIn], when the extension API exists: from the
    account in the state to a rejection reason, if it rejects, and the
    account in the state afterwards. *)
Variable ensureLoggedIn : option (value -> option value * value).

(** [util.currentGame(api.store)]: the id of the game, or the reason of
    the rejection. *)
Variable currentGame : string + value.

(** [Nexus.create(apiKey, appName, appVersion, gameId)]. *)
Variable Nexus_create : string -> string -> string -> string -> client + value.

Definition getAccount (s : state) : result account :=
  parse_account (confidential_account s).

Definition called (c : extCall) (s : state) : state :=
  State (confidential_account s) (nexusApi s) (trace s ++ [c]).

(** [nexusApi && account.nexus?.APIKey
     && account.nexus?.APIKey === nexusApi.getValidationResult()?.key]. *)
Definition cached (s : state) (a : account) : option client :=
  match nexusApi s with
  | Some c =>
      if present (apiKey a) && same_key (apiKey a) (validation_key c)
      then Some c else None
  | None => None
  end.

(** [await api.ext.ensureLoggedIn?.() ?? Promise.resolve()]: the reason
    when the call rejects, and the state afterwards. *)
Definition login (s : state) : option failure * state :=
  match ensureLoggedIn with
  | None => (None, s)
  | Some f =>
      let '(rejection, account') := f (confidential_account s) in
      (option_map LoginFailed rejection,
       State account' (nexusApi s) (trace s ++ [CallEnsureLoggedIn]))
  end.

Definition getNexus (s : state) : answer * state :=
  match getAccount s with
  | Err e => (Thrown e, s)
  | Ok account =>
      match cached s account with
      | Some c => (Resolved c, s)
      | None =>
          let s1 := called CallGetApplication s in
          match login s1 with
          | (Some e, s2) => (RejectedWith e, s2)
          | (None, s2) =>
              match getAccount s2 with
              | Err e => (RejectedWith e, s2)
              | Ok account' =>
                  match apiKey account' with
                  | Some key =>
                      if negb (String.eqb key "") then
                        let s3 := called CallCurrentGame s2 in
                        match currentGame with
                        | inr reason => (RejectedWith (NoGame reason), s3)
                        | inl gameId =>
                            let s4 :=
                              called (CallNexusCreate key app_name
                                        app_version gameId) s3 in
                            match Nexus_create key app_name app_version
                                    gameId with
                            | inl c =>
                                (Resolved c,
                                 State (confidential_account s4) (Some c)
                                   (trace s4))
                            | inr reason =>
                                (RejectedWith (CreateFailed reason), s4)
                            end
                        end
                      else (RejectedWith NoApiKey, s2)
                  | None => (RejectedWith NoApiKey, s2)
                  end
              end
          end
      end
  end.


End GetNexus.

(** A user who logs in with the key "key-1", and a [Nexus.create] that
    validates the key it is given: collaborators for the examples. *)
Definition sample_login : value -> option value * value :=
  fun _ => (None, VObj [("nexus", VObj [("APIKey", VStr "key-1")])]).

Definition sample_create : string -> string -> string -> string -> client + value :=
  fun key _ _ _ => inl (Client 1 (Some key)).

Definition sample_getNexus : state -> answer * state :=
  getNexus "Vortex" "1.9.0" (Some sample_login) (inl "skyrim") sample_create.

End NexusApi.

(* ================================================================== *)
(** ** [createVortexApi]: the active profile and its mods (lines 64-78)

    The state of the application is read through the interfaces of
    vortex-api: [persistent.profiles] maps profile ids to profiles,
    [settings.profiles.activeProfileId] names the active one,
    [persistent.mods] maps game ids to the mods installed for the game,
    by mod id.  The store holds plain data, and a property is read
    as an own property. *)
(* ================================================================== *)

Module VortexApi.

(** The fields of [types.IProfile] the code reads. *)
Record IProfile : Type := Profile {
  gameId : string;
  modState : option props     (* by mod id; [undefined] when missing *)
}.

(** The parts of [types.IState] the code reads. *)
Record IState : Type := VortexState {
  profiles : list (string * IProfile);   (* [persistent.profiles] *)
  activeProfileId : option string;       (* [undefined] when there is none *)
  mods : list (string * props)           (* [persistent.mods] *)
}.

Fixpoint find {A : Type} (k : string) (o : list (string * A)) : option A :=
  match o with
  | [] => None
  | (k', v) :: rest => if String.eqb k' k then Some v else find k rest
  end.

(** The property name an id becomes in [o[id]]. *)
Definition property_key (id : option string) : string :=
  match id with
  | Some s => s
  | None => "undefined"
  end.

(** [state.persistent.profiles[state.settings.profiles.activeProfileId]]. *)
Definition getActiveProfile (state : IState) : option IProfile :=
  find (property_key (activeProfileId state)) (profiles state).

(** [{ ...o }] of an object that may be [undefined]. *)
Definition spread (o : option props) : props :=
  match o with
  | Some ps => ps
  | None => []
  end.

(** [k in o], for an own property. *)
Definition mem (k : string) (o : props) : bool :=
  match lookup k o with Some _ => true | None => false end.

(** The own properties after [destination[k] = v]: [v] in place when [k]
    is there, else at the end.  The list keeps the order of insertion,
    which is the order of enumeration but for keys that are array
    indices. *)
Fixpoint assign (k : string) (v : value) (destination : props) : props :=
  match destination with
  | [] => [(k, v)]
  | (k', v') :: rest =>
      if String.eqb k' k then (k, v) :: rest
      else (k', v') :: assign k v rest
  end.

(** [destination[k] = v] on an object built by assignments from [{}]:
    assigning to [__proto__] reaches the setter of [Object.prototype] and
    adds no property. *)
Definition is_proto (k : string) : bool := String.eqb k "__proto__".

Definition set (k : string) (v : value) (destination : props) : props :=
  if is_proto k then destination else assign k v destination.

(** [isMergeableObject] of deepmerge on plain data: objects and arrays. *)
Definition isMergeableObject (v : value) : bool :=
  match v with
  | VObj _ | VArr _ => true
  | _ => false
  end.

(** [propertyIsOnObject(target, k)] where [k] is safe: an own property.
    On a primitive [k in target] throws, which deepmerge takes for no. *)
Definition has_own (target : value) (k : string) : bool :=
  match target with
  | VObj ps => mem k ps
  | _ => false
  end.

(** [propertyIsUnsafe(target, k)]: [k in target] without [k] being an
    own enumerable property. *)
Definition propertyIsUnsafe (target : value) (k : string) : bool :=
  match target with
  | VObj ps => inherited k && negb (mem k ps)
  | _ => false
  end.

(** [cloneUnlessOtherwiseSpecified(v)] with the default options:
    [deepmerge(emptyTarget(v), v)] for an object or an array, which
    leaves out the keys unsafe for [{}], and [v] itself otherwise. *)
Fixpoint clone (v : value) : value :=
  match v with
  | VObj ps =>
      VObj
        (fold_left
           (fun destination (kv : string * value) =>
              let (k, sv) := kv in
              if inherited k then destination
              else assign k (clone sv) destination)
           ps [])
  | VArr elems => VArr (map clone elems)
  | _ => v
  end.

(** [deepmerge(target, source)] of the deepmerge package (version 4)
    with its default options, on plain data (no functions), for a
    source that is an object or an array.  Two arrays are concatenated
    and the elements cloned; when one is an array and the other is not,
    the clone of the source is the answer; else [mergeObject]: the own
    properties of the target are cloned into a new object, then for each
    key of the source, unless it is unsafe for the target, the new
    object gets the merge of the target's and the source's value when
    the target has the key and the source's value is an object or an
    array, and the clone of the source's value otherwise. *)
Fixpoint deepmerge (target source : value) {struct source} : value :=
  match source with
  | VObj sps =>
      match target with
      | VArr _ => clone source
      | _ =>
          VObj
            (fold_left
               (fun destination (kv : string * value) =>
                  let (k, sv) := kv in
                  if propertyIsUnsafe target k then destination
                  else
                    set k
                      (if has_own target k && isMergeableObject sv
                       then deepmerge (get target k) sv
                       else clone sv)
                      destination)
               sps
               (match target with
                | VObj tps =>
                    fold_left
                      (fun destination (kv : string * value) =>
                         set (fst kv) (clone (snd kv)) destination)
                      tps []
                | _ => []
                end))
      end
  | VArr se =>
      match target with
      | VArr te => VArr (map clone (te ++ se))
      | _ => clone source
      end
  | _ => source
  end.

(** [getMods(state, profile = getActiveProfile(state))]. *)
Definition getMods (state : IState) : value :=
  match getActiveProfile state with
  | Some profile =>
      deepmerge (VObj (spread (modState profile)))
        (VObj (spread (find (gameId profile) (mods state))))
  | None => VObj []
  end.

(** One key of the source in [mergeObject]: nothing when [skip] holds of
    it, else [merged] gives the value written under it. *)
Definition merge_step (skip : string -> bool)
  (merged : string -> value -> value)
  (destination : props) (kv : string * value) : props :=
  if skip (fst kv) then destination
  else assign (fst kv) (merged (fst kv) (snd kv)) destination.

(** The mods a profile knows and the mods installed for its game. *)
Definition known (profile : IProfile) : props := spread (modState profile).

Definition installed (state : IState) (profile : IProfile) : props :=
  spread (find (gameId profile) (mods state)).

(** A state for the examples: the active profile keeps a state for
    "modA" and for "gone"; "modA", "modB" and "toString" are installed. *)
Definition sample_profile : IProfile :=
  Profile "skyrim"
    (Some [("modA", VObj [("enabled", VBool true); ("state", VStr "old")]);
           ("gone", VObj [("enabled", VBool false)])]).

Definition sample_state : IState :=
  VortexState
    [("p1", sample_profile)]
    (Some "p1")
    [("skyrim", [("modA", VObj [("id", VStr "modA");
                                 ("state", VStr "installed")]);
                 ("modB", VObj [("id", VStr "modB")]);
                 ("toString", VObj [("id", VStr "toString")])])].

End VortexApi.

(* ================================================================== *)
(** ** [main]: what the extension registers at startup (lines 15-29,
    72-77 and 99-178)

    Of the objects [createVortexApi] and [createNexusApi] return, the
    dispatcher reads the property names, in the order of the literals,
    whether a value is a function, and the [middleware] sub-map.
    Handlers are labelled by their position; the middleware of a handler
    is the [parse] of a schema of @toebean/npc-vortex-api, one function
    for each schema, labelled by the schema. *)
(* ================================================================== *)

Module Extension.

Inductive argsSchema : Type :=
| endorseModArgsSchema
| modIdArgsSchema
| getCollectionArgsSchema
| getCollectionRevisionArgsSchema
| gameIdArgsSchema
| getDownloadUrlArgsSchema
| getFileByMd5ArgsSchema
| fileIdArgsSchema
| getMyCollectionsArgsSchema
| getRecentlyUpdatedModsArgsSchema
| rateCollectionRevisionArgsSchema
| resolveCollectionUrlArgsSchema
| trackModArgsSchema.

(** [nexus.schemas.<schema>.parse]. *)
Definition parse_of (s : argsSchema) : value :=
  VFun (100 +
        match s with
        | endorseModArgsSchema => 0
        | modIdArgsSchema => 1
        | getCollectionArgsSchema => 2
        | getCollectionRevisionArgsSchema => 3
        | gameIdArgsSchema => 4
        | getDownloadUrlArgsSchema => 5
        | getFileByMd5ArgsSchema => 6
        | fileIdArgsSchema => 7
        | getMyCollectionsArgsSchema => 8
        | getRecentlyUpdatedModsArgsSchema => 9
        | rateCollectionRevisionArgsSchema => 10
        | resolveCollectionUrlArgsSchema => 11
        | trackModArgsSchema => 12
        end).

(** The handler properties of the object [createNexusApi] returns. *)
Definition nexus_handlers : list string :=
  ["endorseMod"; "getChangelogs"; "getCollection"; "getCollectionRevision";
   "getCollections"; "getColorSchemes"; "getDownloadUrls"; "getEndorsements";
   "getFileByMd5"; "getFileInfo"; "getGameInfo"; "getGames";
   "getLatestAdded"; "getLatestUpdated"; "getModFiles"; "getModInfo";
   "getMyCollections"; "getRateLimits"; "getRecentlyUpdatedMods";
   "getTrackedMods"; "getTrending"; "getValidationResult";
   "rateCollectionRevision"; "resolveCollectionUrl"; "trackMod";
   "untrackMod"].

(** Its [middleware] property. *)
Definition nexus_middleware : list (string * argsSchema) :=
  [("endorseMod", endorseModArgsSchema);
   ("getChangelogs", modIdArgsSchema);
   ("getCollection", getCollectionArgsSchema);
   ("getCollectionRevision", getCollectionRevisionArgsSchema);
   ("getCollections", gameIdArgsSchema);
   ("getDownloadUrls", getDownloadUrlArgsSchema);
   ("getFileByMd5", getFileByMd5ArgsSchema);
   ("getFileInfo", fileIdArgsSchema);
   ("getGameInfo", gameIdArgsSchema);
   ("getLatestAdded", gameIdArgsSchema);
   ("getLatestUpdated", gameIdArgsSchema);
   ("getModFiles", modIdArgsSchema);
   ("getModInfo", modIdArgsSchema);
   ("getMyCollections", getMyCollectionsArgsSchema);
   ("getRecentlyUpdatedMods", getRecentlyUpdatedModsArgsSchema);
   ("getTrending", gameIdArgsSchema);
   ("rateCollectionRevision", rateCollectionRevisionArgsSchema);
   ("resolveCollectionUrl", resolveCollectionUrlArgsSchema);
   ("trackMod", trackModArgsSchema);
   ("untrackMod", trackModArgsSchema)].

(** The handler properties of the object [createVortexApi] returns. *)
Definition vortex_handlers : list string :=
  ["ensureLoggedIn"; "getActiveProfile"; "getCurrentGame"; "getMods"].

(** Properties holding functions labelled from [first] on. *)
Definition handlers_from (first : nat) (names : list string) : props :=
  combine names (map VFun (seq first (List.length names))).

Definition createNexusApi : value :=
  VObj (handlers_from 0 nexus_handlers
        ++ [("middleware",
             VObj (map (fun ks : string * argsSchema =>
                          (fst ks, parse_of (snd ks)))
                     nexus_middleware))]).

Definition createVortexApi : value :=
  VObj (handlers_from 50 vortex_handlers).

(** The calls of [context.registerAPI]: the name and [minArguments]. *)
Definition registerAPI : list (string * nat) :=
  [("createNexusApi", 0); ("createVortexApi", 0); ("registerNpcApi", 2)].

(** The callback handed to [context.once], up to its [await]: the two
    namespaces are registered one after the other and the callback waits
    for [Promise.all] of the two promises. *)
Definition once (platform : Path.platform) (fuel : nat) : M promise :=
  async (
    nexusPromise <- registerNpcApi platform fuel (VStr "nexus")
                      createNexusApi VUndefined ;;
    vortexPromise <- registerNpcApi platform fuel (VStr ".")
                       createVortexApi VUndefined ;;
    fun w => ret (All (clock w) [nexusPromise; vortexPromise]) w).

(** The endpoint [once] creates for a handler of the Nexus API and for a
    handler of the Vortex API. *)
Definition nexus_endpoint (pl : Path.platform) (k : string) : npc :=
  Npc (get createNexusApi k)
    (option_map parse_of (VortexApi.find k nexus_middleware))
    [errorSink]
    (Pending ("vortex" ++ String (Path.sep pl)
                            ("nexus" ++ String (Path.sep pl) k))).

Definition vortex_endpoint (pl : Path.platform) (k : string) : npc :=
  Npc (get createVortexApi k) None [errorSink]
    (Pending ("vortex" ++ String (Path.sep pl) k)).

(** The name an endpoint has been asked to listen under. *)
Definition pending_name (n : npc) : option string :=
  match npc_state n with
  | Pending name => Some name
  | _ => None
  end.

(** No string occurs twice. *)
Fixpoint distinct (l : list string) : bool :=
  match l with
  | [] => true
  | x :: rest => negb (existsb (String.eqb x) rest) && distinct rest
  end.

End Extension.

(* ================================================================== *)
(** ** Vocabulary of the properties *)
(* ================================================================== *)

Unset Implicit Arguments.

(** The world after one endpoint has been created for [callback], the
    error sink attached and [listen(name)] called. *)
Definition registered (w : world) (callback : value)
  (middleware : option value) (name : string) : world :=
  let ep := List.length (npcs w) in
  World (npcs w ++ [Npc callback middleware [errorSink] (Pending name)])
        (calls w ++ [CallCreate ep callback middleware; CallOn ep "error";
                     CallListen ep name])
        (logged w) (clock w).

(** One flattened registration request. *)
Record registration : Type := Registration {
  reg_path : string;
  reg_handler : value;
  reg_middleware : option value
}.

Section Flattener.

Variable platform : Path.platform.

(** The requests the loop of the batch form issues for a valid map, as
    the NamespaceFlattener of the specification (4.3) lists them: the
    reserved key is no candidate; a property whose value is a handler
    gives one request, under the composed path, with the value read
    under the same key of the [middleware] sub-map when that is a handler
    too; every other property is dropped. *)
Definition flatten_property (namespace : string) (map : props)
  (k : string) : list registration :=
  if String.eqb k "middleware" then []
  else if isCallback (get (VObj map) k) then
    [Registration (join platform namespace k) (get (VObj map) k)
       (let m := get (get (VObj map) "middleware") k in
        if isCallback m then Some m else None)]
  else [].

Definition flatten (namespace : string) (map : props) : list registration :=
  flat_map (flatten_property namespace map) (List.map fst map).

(** The single form applied to one request. *)
Definition register_one (w : world) (r : registration) : world :=
  registered w (reg_handler r) (reg_middleware r)
    (join platform "vortex" (reg_path r)).

Definition npc_of (r : registration) : npc :=
  Npc (reg_handler r) (reg_middleware r) [errorSink]
    (Pending (join platform "vortex" (reg_path r))).

Fixpoint calls_from (ep : nat) (regs : list registration) : list call :=
  match regs with
  | [] => []
  | r :: rest =>
      CallCreate ep (reg_handler r) (reg_middleware r)
      :: CallOn ep "error"
      :: CallListen ep (join platform "vortex" (reg_path r))
      :: calls_from (S ep) rest
  end.

End Flattener.

(** The property names of a map whose value is a handler, in iteration
    order. *)
Definition handler_properties (api : props) : list string :=
  filter (fun k => isCallback (get (VObj api) k)) (map fst api).

(** The middleware paired with property [k]. *)
Definition attached (api : props) (k : string) : option value :=
  let m := get (get (VObj api) "middleware") k in
  if isCallback m then Some m else None.

(** The endpoint the batch form creates for property [k]. *)
Definition endpoint_for (pl : Path.platform) (ns : string) (api : props)
  (k : string) : npc :=
  Npc (get (VObj api) k) (attached api k) [errorSink]
    (Pending (join pl "vortex" (join pl ns k))).

(** The promise [st] is fulfilled with [v]. *)
Definition fulfilled_with (st : promiseState) (v : value) : Prop :=
  exists t, st = Fulfilled t v.

(** A state that is no rejection, or a rejection later than [t]. *)
Definition later (t : nat) (st : promiseState) : Prop :=
  match st with
  | RejectedAt t' _ => t < t'
  | _ => True
  end.

(** The error listeners of endpoint [ep]. *)
Definition listeners (w : world) (ep : nat) : list listener :=
  match nth_error (npcs w) ep with
  | Some n => npc_on_error n
  | None => []
  end.

(** The settlements among the events. *)
Fixpoint settlements (evs : list event) : list (nat * settlement) :=
  match evs with
  | [] => []
  | Settled ep s :: rest => (ep, s) :: settlements rest
  | ErrorEvent _ _ :: rest => settlements rest
  end.

(** What the listeners of the endpoints pass to the logger. *)
Definition reported (w : world) (ev : event) : list logEntry :=
  match ev with
  | Settled _ _ => []
  | ErrorEvent ep err => fst (call_listeners (listeners w ep) err)
  end.

(** The first settlement of endpoint [ep] in a schedule, if there is one:
    the one that counts, a settled call is not settled again. *)
Fixpoint first_settlement (schedule : list (nat * settlement)) (ep : nat)
  : option settlement :=
  match schedule with
  | [] => None
  | (e, s) :: rest =>
      if Nat.eqb e ep then Some s else first_settlement rest ep
  end.

(** The endpoint [n], pending under [name], once settled by [s] at [t]. *)
Definition settled (n : npc) (name : string) (s : settlement) (t : nat)
  : npc :=
  Npc (npc_callback n) (npc_middleware n) (npc_on_error n)
    match s with
    | Accept => Listening name t
    | Refuse reason => Failed reason t
    end.

(** How one settlement relates an endpoint before and after. *)
Inductive evolves (time : nat) (ep : nat) (schedule : list (nat * settlement))
  (n : npc) : npc -> Prop :=
| EvSame : evolves time ep schedule n n
| EvAccepted (name : string) (t : nat) :
    npc_state n = Pending name -> time < t ->
    In (ep, Accept) schedule ->
    evolves time ep schedule n
      (Npc (npc_callback n) (npc_middleware n) (npc_on_error n)
         (Listening name t))
| EvRefused (name : string) (reason : value) (t : nat) :
    npc_state n = Pending name -> time < t ->
    In (ep, Refuse reason) schedule ->
    evolves time ep schedule n
      (Npc (npc_callback n) (npc_middleware n) (npc_on_error n)
         (Failed reason t)).

(* ================================================================== *)
(** ** Properties of the dispatcher *)
(* ================================================================== *)

Lemma update_last (f : npc -> npc) (l : list npc) (x : npc) :
  update (List.length l) f (l ++ [x]) = l ++ [f x].
Proof.
  unfold update.
  rewrite firstn_app, firstn_all, Nat.sub_diag, skipn_app, skipn_all,
    Nat.sub_diag.
  simpl. now rewrite app_nil_r.
Qed.

(* ------------------------------------------------------------------ *)
(** *** Path composition on plain segments *)

Module PathFacts.
Import Path.

Lemma plain_char_not_sep (pl : platform) (c : ascii) :
  plain_char c = true -> is_sep pl c = false.
Proof.
  unfold plain_char, isPathSeparator. intros H.
  apply andb_prop in H as [H _]. apply negb_true_iff in H.
  apply orb_false_elim in H as [H1 H2].
  destruct pl; simpl; unfold isPosixPathSeparator, isPathSeparator;
    now rewrite ?H1, ?H2.
Qed.

Lemma is_sep_sep (pl : platform) : is_sep pl (sep pl) = true.
Proof. now destruct pl. Qed.

Lemma plain_parts (cs : chars) :
  plain cs = true ->
  is_empty cs = false /\ chars_eqb cs [CHAR_DOT] = false /\
  chars_eqb cs [CHAR_DOT; CHAR_DOT] = false /\ forallb plain_char cs = true.
Proof.
  unfold plain. intros H.
  apply andb_prop in H as [H H4]. apply andb_prop in H as [H H3].
  apply andb_prop in H as [H1 H2].
  now rewrite negb_true_iff in H1, H2, H3.
Qed.

Lemma segments_plain (pl : platform) (cs : chars) :
  forallb plain_char cs = true -> segments (is_sep pl) cs = [cs].
Proof.
  induction cs as [|c cs IH]; simpl; [reflexivity|].
  intros H. apply andb_prop in H as [Hc Hcs].
  now rewrite (plain_char_not_sep pl c Hc), (IH Hcs).
Qed.

Lemma segments_app (pl : platform) (a b : chars) (c : ascii) :
  forallb plain_char a = true -> is_sep pl c = true ->
  segments (is_sep pl) (a ++ c :: b) = a :: segments (is_sep pl) b.
Proof.
  intros Ha Hc. induction a as [|x a IH]; simpl.
  - now rewrite Hc.
  - simpl in Ha. apply andb_prop in Ha as [Hx Ha].
    now rewrite (plain_char_not_sep pl x Hx), (IH Ha).
Qed.

Lemma normalizeStep_plain (allow : bool) (res : list chars) (seg : chars) :
  plain seg = true -> normalizeStep allow res seg = res ++ [seg].
Proof.
  intros H. destruct (plain_parts seg H) as (H1 & H2 & H3 & _).
  unfold normalizeStep. now rewrite H1, H2, H3.
Qed.

(** Two plain segments around a separator are left as they are. *)
Lemma normalizeString_two (pl : platform) (allow : bool) (a b : chars) :
  plain a = true -> plain b = true ->
  normalizeString (a ++ sep pl :: b) allow (sep pl) (is_sep pl)
  = a ++ sep pl :: b.
Proof.
  intros Ha Hb. unfold normalizeString.
  rewrite segments_app, segments_plain;
    try apply is_sep_sep; try apply plain_parts; auto.
  simpl. rewrite !normalizeStep_plain by assumption. simpl.
  destruct a; [discriminate|reflexivity].
Qed.

(** A "." before the separator is dropped. *)
Lemma normalizeString_dot (pl : platform) (allow : bool) (b : chars) :
  plain b = true ->
  normalizeString (CHAR_DOT :: sep pl :: b) allow (sep pl) (is_sep pl) = b.
Proof.
  intros Hb. unfold normalizeString.
  change (CHAR_DOT :: sep pl :: b) with ([CHAR_DOT] ++ sep pl :: b).
  rewrite segments_app by (try reflexivity; apply is_sep_sep).
  rewrite segments_plain by (now apply plain_parts).
  simpl. now rewrite normalizeStep_plain.
Qed.

Lemma first_char_plain (pl : platform) (cs : chars) :
  forallb plain_char cs = true -> first_char (is_sep pl) cs = false.
Proof.
  destruct cs as [|c cs]; simpl; [reflexivity|].
  intros H. apply andb_prop in H as [Hc _]. now apply plain_char_not_sep.
Qed.

Lemma last_char_plain (pl : platform) (a b : chars) :
  plain b = true -> last_char (is_sep pl) (a ++ b) = false.
Proof.
  intros Hb. destruct (plain_parts b Hb) as (H1 & _ & _ & H4).
  unfold last_char. rewrite rev_app_distr.
  destruct (rev b) as [|c r] eqn:Hr.
  - apply (f_equal (@rev ascii)) in Hr. rewrite rev_involutive in Hr.
    now subst b.
  - simpl. apply plain_char_not_sep.
    rewrite forallb_forall in H4. apply H4. apply in_rev. rewrite Hr.
    now left.
Qed.

Lemma plain_cons (cs : chars) :
  plain cs = true ->
  exists c rest, cs = c :: rest /\ plain_char c = true.
Proof.
  intros H. destruct (plain_parts cs H) as (H1 & _ & _ & H4).
  destruct cs as [|c rest]; [discriminate|].
  simpl in H4. apply andb_prop in H4 as [Hc _]. eauto.
Qed.

Lemma posix_normalize_two (a b : chars) :
  plain a = true -> plain b = true ->
  posix_normalize (a ++ CHAR_FORWARD_SLASH :: b) = a ++ CHAR_FORWARD_SLASH :: b.
Proof.
  intros Ha Hb. destruct (plain_cons a Ha) as (c & rest & -> & Hc).
  set (path := (c :: rest) ++ CHAR_FORWARD_SLASH :: b).
  assert (N : forall allow,
             normalizeString path allow CHAR_FORWARD_SLASH isPosixPathSeparator
             = path)
    by (intro; exact (normalizeString_two posix allow _ _ Ha Hb)).
  assert (F : first_char isPosixPathSeparator path = false)
    by exact (plain_char_not_sep posix c Hc).
  assert (L : last_char isPosixPathSeparator path = false).
  { unfold path.
    change ((c :: rest) ++ CHAR_FORWARD_SLASH :: b)
      with ((c :: rest) ++ [CHAR_FORWARD_SLASH] ++ b).
    rewrite app_assoc. exact (last_char_plain posix _ b Hb). }
  unfold posix_normalize. rewrite F, L, N. reflexivity.
Qed.

Lemma posix_normalize_dot (b : chars) :
  plain b = true ->
  posix_normalize (CHAR_DOT :: CHAR_FORWARD_SLASH :: b) = b.
Proof.
  intros Hb. destruct (plain_cons b Hb) as (c & rest & E & Hc).
  set (path := CHAR_DOT :: CHAR_FORWARD_SLASH :: b).
  assert (N : forall allow,
             normalizeString path allow CHAR_FORWARD_SLASH isPosixPathSeparator
             = b)
    by (intro; exact (normalizeString_dot posix allow _ Hb)).
  assert (L : last_char isPosixPathSeparator path = false)
    by exact (last_char_plain posix [CHAR_DOT; CHAR_FORWARD_SLASH] b Hb).
  unfold posix_normalize. rewrite L, N. subst b. reflexivity.
Qed.

(** A relative path without a drive: [path.win32.normalize] comes down to
    [normalizeString]. *)
Lemma win32_normalize_relative (c0 c1 : ascii) (rest : chars) :
  isPathSeparator c0 = false -> Ascii.eqb c1 CHAR_COLON = false ->
  win32_normalize (c0 :: c1 :: rest) =
  let tail0 :=
    normalizeString (c0 :: c1 :: rest) true CHAR_BACKWARD_SLASH
      isPathSeparator in
  let tail1 := if is_empty tail0 then [CHAR_DOT] else tail0 in
  if last_char isPathSeparator (c0 :: c1 :: rest)
  then tail1 ++ [CHAR_BACKWARD_SLASH] else tail1.
Proof.
  intros H0 H1. unfold win32_normalize, win32_match_root.
  rewrite H0, H1, andb_false_r. cbv zeta. cbn [is_empty negb andb].
  rewrite andb_true_r.
  destruct (is_empty (normalizeString _ _ _ _)) eqn:He;
    cbv iota; rewrite ?He; reflexivity.
Qed.

Lemma win32_slashes_relative (firstPart joined : chars) :
  first_char isPathSeparator firstPart = false ->
  first_char isPathSeparator joined = false ->
  win32_slashes firstPart joined = joined.
Proof.
  intros Hf Hj. unfold win32_slashes. cbn [skipn]. rewrite Hf.
  destruct joined as [|c rest]; [reflexivity|].
  simpl in Hj. cbn [skipn span]. now rewrite Hj.
Qed.

Lemma win32_join_two (a b : chars) :
  plain a = true -> plain b = true ->
  win32_join [a; b] = a ++ CHAR_BACKWARD_SLASH :: b.
Proof.
  intros Ha Hb.
  destruct (plain_parts a Ha) as (Ha1 & _ & _ & Ha4).
  destruct (plain_parts b Hb) as (Hb1 & _ & _ & Hb4).
  unfold win32_join. cbn [filter]. rewrite Ha1, Hb1. cbn [negb intercalate].
  destruct (plain_cons a Ha) as (c & rest & -> & Hc).
  pose proof (plain_char_not_sep win32 c Hc) as Hs. simpl in Hs.
  rewrite win32_slashes_relative by (simpl; assumption).
  set (path := (c :: rest) ++ CHAR_BACKWARD_SLASH :: b).
  assert (N : normalizeString path true CHAR_BACKWARD_SLASH isPathSeparator
              = path)
    by exact (normalizeString_two win32 true _ _ Ha Hb).
  assert (L : last_char isPathSeparator path = false).
  { unfold path.
    change ((c :: rest) ++ CHAR_BACKWARD_SLASH :: b)
      with ((c :: rest) ++ [CHAR_BACKWARD_SLASH] ++ b).
    rewrite app_assoc. exact (last_char_plain win32 _ b Hb). }
  assert (E : exists c1 rest2,
             path = c :: c1 :: rest2 /\ Ascii.eqb c1 CHAR_COLON = false).
  { unfold path. destruct rest as [|c1 rest2]; simpl; [eauto|].
    exists c1, (rest2 ++ CHAR_BACKWARD_SLASH :: b). split; [reflexivity|].
    simpl in Ha4. apply andb_prop in Ha4 as [_ Ha4].
    apply andb_prop in Ha4 as [Hc1 _]. unfold plain_char in Hc1.
    apply andb_prop in Hc1 as [_ Hc1]. now apply negb_true_iff in Hc1. }
  destruct E as (c1 & rest2 & E & Hc1).
  rewrite E in N, L |- *.
  rewrite win32_normalize_relative by assumption. cbv zeta.
  rewrite N, L. reflexivity.
Qed.

Lemma win32_join_dot (b : chars) :
  plain b = true -> win32_join [[CHAR_DOT]; b] = b.
Proof.
  intros Hb. destruct (plain_parts b Hb) as (Hb1 & _ & _ & Hb4).
  unfold win32_join. cbn [filter is_empty negb]. rewrite Hb1.
  cbn [negb intercalate].
  rewrite win32_slashes_relative by reflexivity.
  change ([CHAR_DOT] ++ CHAR_BACKWARD_SLASH :: b)
    with (CHAR_DOT :: CHAR_BACKWARD_SLASH :: b).
  assert (N : normalizeString (CHAR_DOT :: CHAR_BACKWARD_SLASH :: b) true
                CHAR_BACKWARD_SLASH isPathSeparator = b)
    by exact (normalizeString_dot win32 true _ Hb).
  assert (L : last_char isPathSeparator (CHAR_DOT :: CHAR_BACKWARD_SLASH :: b)
              = false)
    by exact (last_char_plain win32 [CHAR_DOT; CHAR_BACKWARD_SLASH] b Hb).
  rewrite win32_normalize_relative by reflexivity. cbv zeta.
  rewrite N, L. now rewrite Hb1.
Qed.

Lemma string_of_list_ascii_app (a b : chars) :
  string_of_list_ascii (a ++ b) =
  (string_of_list_ascii a ++ string_of_list_ascii b)%string.
Proof. induction a as [|c a IH]; simpl; [reflexivity|now rewrite IH]. Qed.

(** On either platform two plain segments are joined by the platform's
    separator. *)
Lemma join_plain (pl : platform) (a b : string) :
  plain_segment a = true -> plain_segment b = true ->
  join pl [a; b] = (a ++ String (sep pl) b)%string.
Proof.
  unfold plain_segment. intros Ha Hb.
  destruct (plain_parts _ Ha) as (Ha1 & _). destruct (plain_parts _ Hb) as (Hb1 & _).
  unfold join. cbn [map]. destruct pl.
  - unfold posix_join, glue. cbn [filter]. rewrite Ha1, Hb1.
    cbn [negb intercalate]. rewrite posix_normalize_two by assumption.
    rewrite string_of_list_ascii_app. simpl.
    now rewrite !string_of_list_ascii_of_string.
  - rewrite win32_join_two by assumption.
    rewrite string_of_list_ascii_app. simpl.
    now rewrite !string_of_list_ascii_of_string.
Qed.

Lemma posix_join_dot (b : chars) :
  plain b = true -> posix_join [[CHAR_DOT]; b] = b.
Proof.
  intros Hb. destruct (plain_parts b Hb) as (Hb1 & _).
  unfold posix_join, glue. cbn [filter is_empty negb]. rewrite Hb1.
  cbn [negb intercalate]. now apply posix_normalize_dot.
Qed.

(** A base equal to "." collapses to the segment. *)
Lemma join_dot (pl : platform) (b : string) :
  plain_segment b = true -> join pl ["."; b] = b.
Proof.
  unfold plain_segment. intros Hb. unfold join.
  change (map list_ascii_of_string ["."; b])
    with [[CHAR_DOT]; list_ascii_of_string b].
  destruct pl.
  - rewrite posix_join_dot by assumption.
    apply string_of_list_ascii_of_string.
  - rewrite win32_join_dot by assumption.
    apply string_of_list_ascii_of_string.
Qed.

End PathFacts.

(* ------------------------------------------------------------------ *)
(** *** The transport: how endpoints evolve under settlements *)

Lemma update_nil (e : nat) (f : npc -> npc) : update e f [] = [].
Proof. now destruct e. Qed.

Lemma update_cons (e : nat) (f : npc -> npc) (a : npc) (l : list npc) :
  update e f (a :: l) =
  match e with
  | O => f a :: l
  | S e' => a :: update e' f l
  end.
Proof. destruct e; reflexivity. Qed.

Lemma nth_error_update (f : npc -> npc) (l : list npc) (e ep : nat) :
  nth_error (update e f l) ep =
  if Nat.eqb ep e then option_map f (nth_error l ep) else nth_error l ep.
Proof.
  revert e ep. induction l as [|a l IH]; intros e ep.
  - rewrite update_nil. destruct (Nat.eqb ep e); now destruct ep.
  - rewrite update_cons. destruct e as [|e], ep as [|ep]; simpl; auto.
Qed.

Lemma length_update (f : npc -> npc) (l : list npc) (e : nat) :
  List.length (update e f l) = List.length l.
Proof.
  revert e. induction l as [|a l IH]; intros e.
  - now rewrite update_nil.
  - rewrite update_cons. destruct e; simpl; auto.
Qed.

(** The transport neither makes calls nor logs; each settlement advances
    the clock by one. *)
Lemma run_frame (schedule : list (nat * settlement)) (w : world) :
  calls (run schedule w) = calls w /\
  logged (run schedule w) = logged w /\
  clock (run schedule w) = clock w + List.length schedule /\
  List.length (npcs (run schedule w)) = List.length (npcs w).
Proof.
  revert w. induction schedule as [|ev schedule IH]; intros w; simpl.
  - now rewrite Nat.add_0_r.
  - destruct (IH (settle w ev)) as (Hc & Hl & Hk & Hn).
    unfold run in *. rewrite Hc, Hl, Hk, Hn. simpl.
    rewrite length_update. repeat split; lia.
Qed.

Lemma settle_evolves (w : world) (ev : nat * settlement) (ep : nat)
  (n : npc) :
  nth_error (npcs w) ep = Some n ->
  exists n', nth_error (npcs (settle w ev)) ep = Some n' /\
             evolves (clock w) ep [ev] n n'.
Proof.
  intros Hn. destruct ev as [e s]. unfold settle; simpl.
  rewrite nth_error_update, Hn.
  destruct (Nat.eqb ep e) eqn:He; [|eexists; split; [reflexivity|constructor]].
  apply Nat.eqb_eq in He. subst e. simpl. eexists; split; [reflexivity|].
  unfold settle_npc. destruct (npc_state n) eqn:Hs; try constructor.
  destruct s.
  - eapply EvAccepted; eauto. now left.
  - eapply EvRefused; eauto. now left.
Qed.

Lemma evolves_settled (time ep : nat) (schedule : list (nat * settlement))
  (n n' : npc) :
  evolves time ep schedule n n' ->
  (forall name, npc_state n <> Pending name) -> n' = n.
Proof.
  intros E H.
  inversion E as [|name t Hs _ _|name reason t Hs _ _];
    [reflexivity| |]; exfalso; eapply H; eauto.
Qed.

(** An endpoint under a whole schedule: untouched, or settled once, after
    the start, by one of the scheduled settlements. *)
Lemma run_evolves (schedule : list (nat * settlement)) (w : world)
  (ep : nat) (n : npc) :
  nth_error (npcs w) ep = Some n ->
  exists n', nth_error (npcs (run schedule w)) ep = Some n' /\
             evolves (clock w) ep schedule n n'.
Proof.
  revert w n. induction schedule as [|ev schedule IH]; intros w n Hn.
  - exists n. split; [assumption|constructor].
  - destruct (settle_evolves w ev ep n Hn) as (n1 & Hn1 & E1).
    destruct (IH _ _ Hn1) as (n2 & Hn2 & E2).
    exists n2. split; [exact Hn2|].
    assert (Hclock : clock (settle w ev) = S (clock w)) by reflexivity.
    rewrite Hclock in E2.
    inversion E1 as [|name t Hs Ht Hin|name reason t Hs Ht Hin]; subst.
    + inversion E2 as [|name t Hs Ht Hin|name reason t Hs Ht Hin]; subst.
      * constructor.
      * eapply EvAccepted; eauto; [lia|now right].
      * eapply EvRefused; eauto; [lia|now right].
    + rewrite (evolves_settled _ _ _ _ _ E2) by (simpl; discriminate).
      eapply EvAccepted; eauto.
      destruct Hin as [->|[]]. now left.
    + rewrite (evolves_settled _ _ _ _ _ E2) by (simpl; discriminate).
      eapply EvRefused; eauto.
      destruct Hin as [->|[]]. now left.
Qed.

(** An endpoint that is no longer pending is left as it is. *)
Lemma run_settled (schedule : list (nat * settlement)) (w : world)
  (ep : nat) (n : npc) :
  nth_error (npcs w) ep = Some n ->
  (forall name, npc_state n <> Pending name) ->
  nth_error (npcs (run schedule w)) ep = Some n.
Proof.
  intros Hn Hs. destruct (run_evolves schedule w ep n Hn) as (n' & Hn' & E).
  now rewrite <- (evolves_settled _ _ _ _ _ E Hs).
Qed.

(** An endpoint the schedule does not mention is left as it is. *)
Lemma run_untouched (schedule : list (nat * settlement)) (w : world)
  (ep : nat) (n : npc) :
  nth_error (npcs w) ep = Some n ->
  ~ In ep (map fst schedule) ->
  nth_error (npcs (run schedule w)) ep = Some n.
Proof.
  intros Hn Hnot. destruct (run_evolves schedule w ep n Hn) as (n' & Hn' & E).
  inversion E as [|name t Hs Ht Hin|name reason t Hs Ht Hin]; subst; auto;
    exfalso; apply Hnot; apply (in_map fst) in Hin; exact Hin.
Qed.

Lemma first_settlement_none (schedule : list (nat * settlement)) (ep : nat) :
  first_settlement schedule ep = None -> ~ In ep (map fst schedule).
Proof.
  induction schedule as [|[e s] schedule IH]; simpl; [tauto|].
  destruct (Nat.eqb e ep) eqn:He; [discriminate|].
  apply Nat.eqb_neq in He. intros H [Heq|Hin]; [contradiction|].
  now apply IH.
Qed.

Lemma first_settlement_split (schedule : list (nat * settlement)) (ep : nat)
  (s : settlement) :
  first_settlement schedule ep = Some s ->
  exists before after,
    schedule = before ++ (ep, s) :: after /\ ~ In ep (map fst before).
Proof.
  induction schedule as [|[e s'] schedule IH]; simpl; [discriminate|].
  destruct (Nat.eqb e ep) eqn:He.
  - apply Nat.eqb_eq in He. subst e. intros H. injection H as ->.
    exists [], schedule. split; [reflexivity|]. simpl. tauto.
  - apply Nat.eqb_neq in He. intros H.
    destruct (IH H) as (before & after & -> & Hb).
    exists ((e, s') :: before), after. split; [reflexivity|].
    simpl. tauto.
Qed.

(** A pending endpoint is settled by its first settlement, at the instant
    of that settlement, and stays so. *)
Lemma settled_at (w : world) (ep : nat) (n : npc) (name : string)
  (s : settlement) (pre post : list (nat * settlement)) :
  nth_error (npcs w) ep = Some n -> npc_state n = Pending name ->
  ~ In ep (map fst pre) ->
  nth_error (npcs (run (pre ++ (ep, s) :: post) w)) ep =
  Some (settled n name s (S (clock w + List.length pre))).
Proof.
  intros Hn Hs Hpre. unfold run. rewrite fold_left_app. simpl.
  fold (run pre w). fold (run post (settle (run pre w) (ep, s))).
  apply run_settled; [|destruct s; simpl; discriminate].
  unfold settle; simpl. rewrite nth_error_update, Nat.eqb_refl.
  rewrite (run_untouched pre w ep n Hn Hpre). simpl.
  unfold settle_npc, settled. rewrite Hs.
  destruct (run_frame pre w) as (_ & _ & -> & _). reflexivity.
Qed.

(** The endpoint after a schedule, by its first settlement. *)
Lemma run_first_settlement (schedule : list (nat * settlement)) (w : world)
  (ep : nat) (n : npc) (name : string) :
  nth_error (npcs w) ep = Some n -> npc_state n = Pending name ->
  match first_settlement schedule ep with
  | None => nth_error (npcs (run schedule w)) ep = Some n
  | Some s =>
      exists t, clock w < t /\
                nth_error (npcs (run schedule w)) ep = Some (settled n name s t)
  end.
Proof.
  intros Hn Hs. destruct (first_settlement schedule ep) as [s|] eqn:Hf.
  - destruct (first_settlement_split schedule ep s Hf)
      as (before & after & -> & Hb).
    exists (S (clock w + List.length before)). split; [lia|].
    now apply settled_at.
  - apply run_untouched; [assumption|]. now apply first_settlement_none.
Qed.

#[local] Arguments get : simpl never.
#[local] Arguments isCallback : simpl never.

Section DispatcherFacts.

Variable platform : Path.platform.

Lemma isCallback_fun (v : value) :
  isCallback v = true -> exists f, v = VFun f.
Proof. destruct v; try discriminate; eauto. Qed.

Lemma create_on_listen (callback : value) (middleware : option value)
  (name : string) (w : world) :
  (npc <- create callback middleware ;;
   on npc "error" errorSink ;;;
   listen npc name ;;;
   ret (AwaitListen npc)) w
  = Some (Return (AwaitListen (List.length (npcs w))),
          registered w callback middleware name).
Proof.
  unfold bind, create, on, listen, ret, registered; simpl.
  rewrite !update_last; simpl.
  now rewrite <- !app_assoc.
Qed.

(** The single form: the second argument is a function. *)
Lemma single_form (fuel : nat) (p : string) (h : nat) (mw : value)
  (w : world) :
  registerNpcApi platform (S fuel) (VStr p) (VFun h) mw w =
  if truthy mw then
    match mw with
    | VFun m =>
        Some (Return (AwaitListen (List.length (npcs w))),
              registered w (VFun h) (Some (VFun m)) (join platform "vortex" p))
    | _ => Some (Return (Rejected (clock w) (ZodError CallbackSchema mw)), w)
    end
  else
    Some (Return (AwaitListen (List.length (npcs w))),
          registered w (VFun h) None (join platform "vortex" p)).
Proof.
  pose proof (create_on_listen (VFun h) None (join platform "vortex" p) w)
    as Hn.
  cbn [registerNpcApi]. unfold async.
  unfold bind at 1. cbn [lift Zod.string_parse].
  change (isCallback (VFun h)) with true. cbv iota.
  unfold bind at 1. cbn [lift Zod.callbackSchema_parse].
  destruct (truthy mw) eqn:Ht.
  - destruct mw; simpl in Ht; try discriminate;
      try (unfold bind; simpl; reflexivity).
    pose proof (create_on_listen (VFun h) (Some (VFun f))
                  (join platform "vortex" p) w) as Hs.
    unfold bind at 2. cbn [lift Zod.callbackSchema_parse].
    unfold bind in Hs |- *. now rewrite Hs.
  - unfold bind in Hn |- *. now rewrite Hn.
Qed.

Lemma registerNpcApi_S (fuel : nat) (p cb mw : value) :
  registerNpcApi platform (S fuel) p cb mw =
  async (
    pathOrNamespace <- lift (Zod.string_parse p) ;;
    if isCallback cb then
      callback <- lift (Zod.callbackSchema_parse cb) ;;
      npc <- (if truthy mw
              then m <- lift (Zod.callbackSchema_parse mw) ;;
                   create callback (Some m)
              else create callback None) ;;
      on npc "error" errorSink ;;;
      listen npc (join platform "vortex" pathOrNamespace) ;;;
      ret (AwaitListen npc)
    else
      api <- lift (Zod.npcApiSchema_parse cb) ;;
      promises <- for_in platform (registerNpcApi platform fuel)
                    pathOrNamespace api (map fst api) [] ;;
      fun w => ret (All (clock w) promises) w).
Proof. reflexivity. Qed.

Lemma fold_register_one (regs : list registration) (w : world) :
  fold_left (register_one platform) regs w =
  World (npcs w ++ map (npc_of platform) regs)
        (calls w ++ calls_from platform (List.length (npcs w)) regs)
        (logged w) (clock w).
Proof.
  revert w. induction regs as [|r regs IH]; intros w; simpl.
  - rewrite !app_nil_r. now destruct w.
  - rewrite IH. unfold register_one, registered; simpl.
    rewrite length_app, Nat.add_1_r, <- !app_assoc. reflexivity.
Qed.

(** The loop of the batch form issues the single form once for each
    request of [flatten], in order. *)
Lemma for_in_flatten (fuel : nat) (ns : string) (api : props) :
  isCallback (get (VObj api) "middleware") = false ->
  forall (keys : list string) (promises : list promise) (w : world),
    let regs := flat_map (flatten_property platform ns api) keys in
    for_in platform (registerNpcApi platform (S fuel)) ns api keys promises w
    = Some (Return (promises ++
                    map AwaitListen
                      (seq (List.length (npcs w)) (List.length regs))),
            fold_left (register_one platform) regs w).
Proof.
  intros Hmw keys. induction keys as [|k keys IH]; intros promises w;
    cbn [for_in flat_map].
  - unfold ret. cbn. now rewrite app_nil_r.
  - cbv zeta in IH.
    set (rest := flat_map (flatten_property platform ns api) keys) in *.
    unfold flatten_property.
    destruct (String.eqb k "middleware") eqn:Hk.
    + apply String.eqb_eq in Hk. subst k. rewrite Hmw. cbn [negb app].
      apply IH.
    + destruct (isCallback (get (VObj api) k)) eqn:Hc; cbn [negb app];
        [|apply IH].
      destruct (isCallback_fun _ Hc) as [h Hh]. rewrite Hh.
      set (m := get (get (VObj api) "middleware") k).
      destruct (isCallback m) eqn:Hm.
      * destruct (isCallback_fun _ Hm) as [f Hf]. rewrite Hf.
        cbn [truthy andb]. change (isCallback (VFun f)) with true. cbv iota.
        unfold bind. rewrite single_form. cbn [truthy].
        rewrite IH. unfold register_one at 2. cbn.
        rewrite length_app, Nat.add_1_r, <- app_assoc. reflexivity.
      * rewrite andb_false_r. unfold bind. rewrite single_form. cbn [truthy].
        rewrite IH. unfold register_one at 2. cbn.
        rewrite length_app, Nat.add_1_r, <- app_assoc. reflexivity.
Qed.

Lemma valid_map_middleware (v : value) (api : props) :
  Zod.npcApiSchema_parse v = Return api ->
  v = VObj api /\ isCallback (get (VObj api) "middleware") = false.
Proof.
  destruct v; simpl; try discriminate.
  destruct (lookup "middleware" props0) as [m|] eqn:Hl.
  - destruct m; try discriminate; intros H; injection H as <-;
      (split; [reflexivity|]); unfold isCallback, get; rewrite Hl;
      reflexivity.
  - intros H; injection H as <-. split; [reflexivity|].
    unfold isCallback, get. now rewrite Hl.
Qed.

(** The batch form: the second argument is a valid namespace map. *)
Lemma batch_form (fuel : nat) (ns : string) (api : props) (mw : value)
  (w : world) :
  Zod.npcApiSchema_parse (VObj api) = Return api ->
  registerNpcApi platform (S (S fuel)) (VStr ns) (VObj api) mw w =
  Some (Return (All (clock w)
                  (map AwaitListen
                     (seq (List.length (npcs w))
                          (List.length (flatten platform ns api))))),
        fold_left (register_one platform) (flatten platform ns api) w).
Proof.
  intros Hv. destruct (valid_map_middleware _ _ Hv) as [_ Hmw].
  rewrite registerNpcApi_S. unfold async.
  unfold bind at 1. cbn [lift Zod.string_parse].
  change (isCallback (VObj api)) with false. cbv iota.
  unfold bind at 1. unfold lift at 1. rewrite Hv.
  unfold bind. rewrite (for_in_flatten fuel ns api Hmw). cbn [app].
  unfold ret, flatten. rewrite fold_register_one. reflexivity.
Qed.

End DispatcherFacts.

(* ------------------------------------------------------------------ *)
(** *** Promises of a batch *)

Lemma flatten_handler_properties (pl : Path.platform) (ns : string)
  (api : props) :
  isCallback (get (VObj api) "middleware") = false ->
  flatten pl ns api =
  map (fun k => Registration (join pl ns k) (get (VObj api) k) (attached api k))
    (handler_properties api).
Proof.
  intros Hmw. unfold flatten, handler_properties.
  induction (map fst api) as [|k keys IH]; [reflexivity|].
  cbn [flat_map filter]. rewrite IH. unfold flatten_property at 1.
  destruct (String.eqb k "middleware") eqn:Hk.
  - apply String.eqb_eq in Hk. subst k. now rewrite Hmw.
  - now destruct (isCallback (get (VObj api) k)).
Qed.

Lemma nth_error_new (pl : Path.platform) (l : list npc)
  (regs : list registration) (i : nat) :
  nth_error (l ++ map (npc_of pl) regs) (List.length l + i) =
  option_map (npc_of pl) (nth_error regs i).
Proof.
  rewrite nth_error_app2 by lia.
  replace (List.length l + i - List.length l) with i by lia.
  apply nth_error_map.
Qed.

Lemma first_rejection_none (sts : list promiseState) (vs : list value) :
  Forall2 fulfilled_with sts vs -> first_rejection sts = None.
Proof.
  induction 1 as [|st v sts vs [t ->] _ IH]; simpl; [reflexivity|].
  now rewrite IH.
Qed.

Lemma all_fulfilled_some (sts : list promiseState) (vs : list value) :
  Forall2 fulfilled_with sts vs ->
  forall time, exists t, all_fulfilled time sts = Some (t, vs).
Proof.
  induction 1 as [|st v sts vs [t ->] _ IH]; intros time; simpl.
  - eauto.
  - destruct (IH (Nat.max time t)) as [t' ->]. eauto.
Qed.

(** [Promise.all] of fulfilled inputs is fulfilled with their values in
    input order. *)
Lemma promise_all_fulfilled (time : nat) (sts : list promiseState)
  (vs : list value) :
  Forall2 fulfilled_with sts vs ->
  exists t, promise_all time sts = Fulfilled t (VArr vs).
Proof.
  intros H. unfold promise_all. rewrite (first_rejection_none _ _ H).
  destruct (all_fulfilled_some _ _ H time) as [t ->]. eauto.
Qed.

Lemma first_rejection_later (t : nat) (sts : list promiseState) :
  Forall (later t) sts ->
  match first_rejection sts with
  | Some (t', _) => t < t'
  | None => True
  end.
Proof.
  induction 1 as [|st sts Hst _ IH]; simpl; [exact I|].
  destruct st as [|t1 v|t1 e]; try exact IH.
  destruct (first_rejection sts) as [[t2 e2]|]; [|exact Hst].
  simpl in Hst. destruct (t1 <=? t2)%nat; assumption.
Qed.

(** [Promise.all] is rejected with the earliest rejection of its inputs. *)
Lemma promise_all_first_rejection (time t : nat) (e : error)
  (before after : list promiseState) :
  Forall (later t) before -> Forall (later t) after ->
  promise_all time (before ++ RejectedAt t e :: after) = RejectedAt t e.
Proof.
  intros Hb Ha. unfold promise_all.
  assert (H : first_rejection (before ++ RejectedAt t e :: after)
              = Some (t, e)).
  { induction Hb as [|st sts Hst _ IH]; simpl.
    - pose proof (first_rejection_later t after Ha) as Hl.
      destruct (first_rejection after) as [[t2 e2]|]; [|reflexivity].
      apply Nat.lt_le_incl, Nat.leb_le in Hl. now rewrite Hl.
    - rewrite IH. destruct st as [|t1 v|t1 e1]; try reflexivity.
      simpl in Hst. apply Nat.leb_gt in Hst. now rewrite Hst. }
  now rewrite H.
Qed.

(* ------------------------------------------------------------------ *)
(** *** Error events *)

Lemma settle_listeners (w : world) (ev : nat * settlement) (ep : nat) :
  listeners (settle w ev) ep = listeners w ep.
Proof.
  unfold listeners, settle; simpl. rewrite nth_error_update.
  destruct (Nat.eqb ep (fst ev)); [|reflexivity].
  destruct (nth_error (npcs w) ep) as [n|]; [|reflexivity]. simpl.
  unfold settle_npc. now destruct (npc_state n).
Qed.

Lemma emit_error_frame (ep : nat) (err : value) (w : world) :
  npcs (emit_error ep err w) = npcs w /\
  calls (emit_error ep err w) = calls w /\
  clock (emit_error ep err w) = clock w /\
  logged (emit_error ep err w) = logged w ++ reported w (ErrorEvent ep err).
Proof.
  unfold emit_error, reported, listeners.
  destruct (nth_error (npcs w) ep); simpl; rewrite ?app_nil_r; auto.
Qed.

(** Error events change nothing but the log: the endpoints, the calls and
    the clock are those the settlements alone lead to, and each event adds
    what the listeners of its endpoint report. *)
Lemma run_events_frame (evs : list event) (w : world) :
  npcs (run_events evs w) = npcs (run (settlements evs) w) /\
  calls (run_events evs w) = calls w /\
  clock (run_events evs w) = clock (run (settlements evs) w) /\
  logged (run_events evs w) = logged w ++ flat_map (reported w) evs.
Proof.
  revert w. induction evs as [|ev evs IH]; intros w.
  - simpl. now rewrite app_nil_r.
  - destruct ev as [ep s|ep err]; cbn [run_events fold_left step settlements].
    + destruct (IH (settle w (ep, s))) as (Hn & Hc & Hk & Hl).
      unfold run_events in *. rewrite Hn, Hc, Hk, Hl. simpl.
      repeat split.
      f_equal. apply flat_map_ext. intros [ep' s'|ep' err']; simpl; auto.
      now rewrite settle_listeners.
    + destruct (IH (emit_error ep err w)) as (Hn & Hc & Hk & Hl).
      destruct (emit_error_frame ep err w) as (En & Ec & Ek & El).
      unfold run_events in *. rewrite Hn, Hc, Hk, Hl, Ec, El.
      assert (Hw : run (settlements evs) (emit_error ep err w)
                   = World (npcs (run (settlements evs) w))
                       (calls (run (settlements evs) w))
                       (logged (emit_error ep err w))
                       (clock (run (settlements evs) w))).
      { clear. revert w. induction (settlements evs) as [|sv l IHl];
          intros w; simpl.
        - destruct (emit_error_frame ep err w) as (En & Ec & Ek & _).
          destruct (emit_error ep err w); simpl in *; now subst.
        - unfold run in IHl.
          replace (settle (emit_error ep err w) sv)
            with (emit_error ep err (settle w sv)).
          + rewrite IHl. f_equal.
            destruct (emit_error_frame ep err w) as (_ & _ & _ & El).
            destruct (emit_error_frame ep err (settle w sv))
              as (_ & _ & _ & El').
            rewrite El, El'. simpl. now rewrite settle_listeners.
          + unfold emit_error, settle; simpl. rewrite nth_error_update.
            destruct (nth_error (npcs w) ep) as [n|] eqn:Hn.
            * destruct (Nat.eqb ep (fst sv)); simpl; [|reflexivity].
              unfold settle_npc. now destruct (npc_state n).
            * now destruct (Nat.eqb ep (fst sv)). }
      rewrite Hw. simpl. repeat split. rewrite <- app_assoc. f_equal.
      f_equal. apply flat_map_ext. intros [ep' s'|ep' err']; simpl; auto.
      unfold listeners. now rewrite En.
Qed.

Lemma poll_ext (w w' : world) (p : promise) :
  npcs w = npcs w' -> poll w p = poll w' p.
Proof.
  intros E. revert p. fix IH 1. intros [t e|ep|t ps]; simpl.
  - reflexivity.
  - now rewrite E.
  - f_equal. induction ps as [|q ps IHps]; simpl; [reflexivity|].
    now rewrite (IH q), IHps.
Qed.

(* ------------------------------------------------------------------ *)
(** *** [join] never returns the empty string *)

Lemma is_empty_app_r {A : Type} (a b : list A) :
  Path.is_empty b = false -> Path.is_empty (a ++ b) = false.
Proof. destruct a; simpl; auto. Qed.

Lemma posix_normalize_nonempty (path : Path.chars) :
  Path.is_empty (Path.posix_normalize path) = false.
Proof.
  unfold Path.posix_normalize.
  destruct (Path.is_empty path); [reflexivity|].
  destruct (Path.is_empty (Path.normalizeString _ _ _ _)) eqn:He.
  - destruct (Path.first_char _ _); [reflexivity|].
    now destruct (Path.last_char _ _).
  - destruct (Path.first_char _ _); [reflexivity|].
    destruct (Path.last_char _ _); [|exact He].
    now apply is_empty_app_r.
Qed.

Lemma win32_match_root_only (path normalized : Path.chars) :
  Path.win32_match_root path = Path.RootOnly normalized ->
  Path.is_empty normalized = false.
Proof.
  unfold Path.win32_match_root.
  destruct path as [|c0 [|c1 rest2]]; try discriminate.
  destruct (Path.isPathSeparator c0).
  - destruct (Path.isPathSeparator c1); [|discriminate].
    destruct (Path.span Path.notSep rest2) as [firstPart r1].
    destruct (negb (Path.is_empty r1) && negb (Path.is_empty firstPart));
      [|discriminate].
    destruct (Path.span Path.isPathSeparator r1) as [seps r2].
    destruct (negb (Path.is_empty r2)); [|discriminate].
    destruct (Path.span Path.notSep r2) as [secondPart r3].
    destruct (Path.is_empty r3); [|discriminate].
    intros H. injection H as <-. reflexivity.
  - destruct (Path.isWindowsDeviceRoot c0 && Ascii.eqb c1 Path.CHAR_COLON);
      [|discriminate].
    now destruct (Path.first_char Path.isPathSeparator rest2).
Qed.

Lemma win32_normalize_nonempty (path : Path.chars) :
  Path.is_empty (Path.win32_normalize path) = false.
Proof.
  unfold Path.win32_normalize.
  destruct path as [|c0 [|c1 rest2]]; [reflexivity| |].
  - now destruct (Path.isPosixPathSeparator c0).
  - destruct (Path.win32_match_root (c0 :: c1 :: rest2))
      as [normalized|device isAbsolute afterRoot] eqn:Hr.
    + exact (win32_match_root_only _ _ Hr).
    + cbv zeta.
      set (tail0 := if Path.is_empty afterRoot then [] else _).
      set (tail1 := if Path.is_empty tail0 && negb isAbsolute then _ else _).
      set (tail := if negb (Path.is_empty tail1) && _ then _ else _).
      assert (Ht : isAbsolute = false -> Path.is_empty tail = false).
      { intros ->. unfold tail, tail1. rewrite andb_true_r.
        destruct (Path.is_empty tail0) eqn:H0.
        - now destruct (Path.last_char _ _).
        - rewrite H0. simpl.
          destruct (Path.last_char _ _); [|assumption].
          now destruct tail0. }
      destruct device as [dev|], isAbsolute; try reflexivity; auto.
      * now apply is_empty_app_r.
      * apply is_empty_app_r; auto.
Qed.

Lemma join_nonempty (pl : Path.platform) (args : list string) :
  Path.join pl args <> "".
Proof.
  unfold Path.join.
  assert (H : forall cs, Path.is_empty cs = false ->
                         string_of_list_ascii cs <> "")
    by (intros [|c cs]; simpl; discriminate).
  apply H. destruct pl.
  - unfold Path.posix_join. destruct (Path.glue _ _); [|reflexivity].
    apply posix_normalize_nonempty.
  - unfold Path.win32_join. destruct (filter _ _); [reflexivity|].
    apply win32_normalize_nonempty.
Qed.

(* ================================================================== *)
(** ** The claims of the specification *)
(* ================================================================== *)

(** Every call returns a promise, whatever its arguments, as soon as the
    recursion bound allows one level of nesting. *)
Lemma registerNpcApi_returns (pl : Path.platform) (fuel : nat)
  (p cb mw : value) (w : world) :
  exists pr w',
    registerNpcApi pl (S (S fuel)) p cb mw w = Some (Return pr, w').
Proof.
  destruct (Zod.string_parse p) as [ns|e] eqn:Hp.
  - destruct p; try discriminate. injection Hp as ->.
    destruct (isCallback cb) eqn:Hc.
    + destruct (isCallback_fun _ Hc) as [h ->]. rewrite single_form.
      destruct (truthy mw); [destruct mw|]; eauto.
    + destruct (Zod.npcApiSchema_parse cb) as [api|e] eqn:Ha.
      * destruct (valid_map_middleware _ _ Ha) as [-> _].
        rewrite batch_form by assumption. eauto.
      * rewrite registerNpcApi_S. unfold async, bind, lift; simpl.
        rewrite Hc, Ha. eauto.
  - rewrite registerNpcApi_S. unfold async, bind, lift. rewrite Hp. eauto.
Qed.

(** C1, as the claim states it, fails: the empty string passes
    [z.string().parse]; the call creates an endpoint and listens under
    "vortex". *)
Lemma C1_empty_string_accepted :
  registerNpcApi Path.posix 2 (VStr "") (VFun 0) VUndefined world0 =
  Some (Return (AwaitListen 0),
        World [Npc (VFun 0) None [errorSink] (Pending "vortex")]
              [CallCreate 0 (VFun 0) None; CallOn 0 "error";
               CallListen 0 "vortex"]
              [] 0).
Proof. reflexivity. Qed.

(** C1, amended: when the first argument is not a string, the call is
    rejected with the validation error of the string schema and the world
    is left as it was: no endpoint, no call to the factory.  The empty
    string is a string: with a handler it is registered under "vortex"
    joined with nothing. *)
Theorem C1_non_string_rejected (pl : Path.platform) (fuel : nat)
  (p cb mw : value) (w : world) :
  isString p = false ->
  registerNpcApi pl (S fuel) p cb mw w =
    Some (Return (Rejected (clock w) (ZodError StringSchema p)), w)
  /\ forall h,
       registerNpcApi pl (S fuel) (VStr "") (VFun h) VUndefined w =
       Some (Return (AwaitListen (List.length (npcs w))),
             registered w (VFun h) None "vortex").
Proof.
  intros Hp. split.
  - rewrite registerNpcApi_S. unfold async, bind, lift.
    now destruct p; try discriminate.
  - intros h. rewrite single_form. now destruct pl.
Qed.

Lemma C1_non_string_rejected_witness :
  registerNpcApi Path.posix 1 (VNum 5) (VFun 0) VUndefined world0 =
    Some (Return (Rejected 0 (ZodError StringSchema (VNum 5))), world0).
Proof.
  exact (proj1 (C1_non_string_rejected Path.posix 0 (VNum 5) (VFun 0)
                  VUndefined world0 eq_refl)).
Defined.

(** C2, as the claim states it, fails: on Windows [join] writes a
    backslash. *)
Lemma C2_win32_backslash :
  Path.join Path.win32 ["nexus"; "getGames"] <> "nexus/getGames".
Proof. vm_compute. discriminate. Qed.

(** C2, amended: on each platform [join] is a function of its arguments
    that writes the separator of that platform, "/" on POSIX and "\" on
    Windows, between two plain segments, and collapses a base equal to "."
    to the segment. *)
Theorem C2_compose (pl : Path.platform) (base segment : string) :
  Path.plain_segment base = true ->
  Path.plain_segment segment = true ->
  Path.join pl [base; segment] = (base ++ String (Path.sep pl) segment)%string
  /\ Path.join pl ["."; segment] = segment
  /\ Path.sep Path.posix = "/"%char /\ Path.sep Path.win32 = "\"%char.
Proof.
  intros Hb Hs. repeat split.
  - now apply PathFacts.join_plain.
  - now apply PathFacts.join_dot.
Qed.

Lemma C2_compose_witness :
  (Path.join Path.posix ["nexus"; "getGames"] = "nexus/getGames"
   /\ Path.join Path.posix ["."; "ping"] = "ping")
  /\ (Path.join Path.win32 ["nexus"; "getGames"] = "nexus\getGames"
      /\ Path.join Path.win32 ["."; "ping"] = "ping").
Proof.
  split; split.
  - exact (proj1 (C2_compose Path.posix "nexus" "getGames" eq_refl eq_refl)).
  - exact (proj1 (proj2 (C2_compose Path.posix "nexus" "ping" eq_refl
                           eq_refl))).
  - exact (proj1 (C2_compose Path.win32 "nexus" "getGames" eq_refl eq_refl)).
  - exact (proj1 (proj2 (C2_compose Path.win32 "nexus" "ping" eq_refl
                           eq_refl))).
Defined.

Lemma nth_error_registered (w : world) (cb : value) (m : option value)
  (name : string) :
  nth_error (npcs (registered w cb m name)) (List.length (npcs w)) =
  Some (Npc cb m [errorSink] (Pending name)).
Proof.
  unfold registered; simpl. rewrite nth_error_app2, Nat.sub_diag by lia.
  reflexivity.
Qed.

(** The single form with a handler and no middleware resolves, once the
    transport accepts, to [join('vortex', path)]. *)
Lemma single_resolves (pl : Path.platform) (fuel : nat) (p : string)
  (h : nat) (w : world) (schedule : list (nat * settlement)) :
  first_settlement schedule (List.length (npcs w)) = Some Accept ->
  exists w' t,
    registerNpcApi pl (S fuel) (VStr p) (VFun h) VUndefined w =
      Some (Return (AwaitListen (List.length (npcs w))), w')
    /\ poll (run schedule w') (AwaitListen (List.length (npcs w)))
       = Fulfilled t (VStr (Path.join pl ["vortex"; p])).
Proof.
  intros Hf. rewrite single_form. cbn [truthy].
  pose proof (run_first_settlement schedule _ _ _ _
                (nth_error_registered w (VFun h) None (join pl "vortex" p))
                eq_refl) as H.
  rewrite Hf in H. destruct H as (t & _ & H).
  eexists _, t. split; [reflexivity|]. cbn [poll]. now rewrite H.
Qed.

(** C3, as the claim states it, fails: for the path ".." the identifier
    is ".", which neither starts with "vortex" nor ends in the path. *)
Lemma C3_dotdot_leaves_root :
  outcome_of
    (registerNpcApi Path.posix 2 (VStr "..") (VFun 0) VUndefined world0)
    [(0, Accept)]
  = Some (Fulfilled 1 (VStr ".")).
Proof. reflexivity. Qed.

(** C3, amended: for a handler [h] and a path [p], [register(p, h)]
    resolves, once the transport accepts the endpoint, to
    [join('vortex', p)], which is never empty; when [p] is a plain segment
    (not empty, not "." or "..", without separator or colon) that is
    "vortex", the separator of the platform and [p]. *)
Theorem C3_single_identifier (pl : Path.platform) (fuel : nat) (p : string)
  (h : nat) (w : world) (schedule : list (nat * settlement)) :
  first_settlement schedule (List.length (npcs w)) = Some Accept ->
  exists w' t identifier,
    registerNpcApi pl (S fuel) (VStr p) (VFun h) VUndefined w =
      Some (Return (AwaitListen (List.length (npcs w))), w')
    /\ poll (run schedule w') (AwaitListen (List.length (npcs w)))
       = Fulfilled t (VStr identifier)
    /\ identifier = Path.join pl ["vortex"; p]
    /\ identifier <> ""
    /\ (Path.plain_segment p = true ->
        identifier = ("vortex" ++ String (Path.sep pl) p)%string).
Proof.
  intros Hf.
  destruct (single_resolves pl fuel p h w schedule Hf) as (w' & t & Hr & Hq).
  exists w', t, (Path.join pl ["vortex"; p]).
  split; [exact Hr|]. split; [exact Hq|]. split; [reflexivity|].
  split; [apply join_nonempty|].
  intros Hp. exact (PathFacts.join_plain pl "vortex" p eq_refl Hp).
Qed.

Lemma C3_single_identifier_witness :
  exists w' t,
    registerNpcApi Path.posix 1 (VStr "ping") (VFun 7) VUndefined world0 =
      Some (Return (AwaitListen 0), w')
    /\ poll (run [(0, Accept)] w') (AwaitListen 0)
       = Fulfilled t (VStr "vortex/ping").
Proof.
  destruct (C3_single_identifier Path.posix 0 "ping" 7 world0 [(0, Accept)]
              eq_refl) as (w' & t & identifier & Hr & Hq & _ & _ & Hp).
  exists w', t. split; [exact Hr|].
  exact (eq_trans Hq (f_equal (fun i => Fulfilled t (VStr i)) (Hp eq_refl))).
Defined.

(** C5, as the claim states it, fails: a string as second argument does
    not select the single form; it is refused by the namespace schema and
    no endpoint is created. *)
Lemma C5_string_is_no_handler :
  registerNpcApi Path.posix 2 (VStr "ping") (VStr "handler") VUndefined
    world0
  = Some (Return (Rejected 0 (ZodError NpcApiSchema (VStr "handler"))),
          world0).
Proof. reflexivity. Qed.

(** C5, amended: the form is decided by the shape of the second argument
    alone, whatever the third argument is.  A function selects the single
    form: one endpoint is created for it, unless the third argument is
    truthy and no function.  A plain mapping selects the batch form: the
    call returns the aggregate of its entries or is rejected by the
    namespace schema.  Every other second argument, a string included, is
    rejected by the namespace schema. *)
Theorem C5_overload_resolution (pl : Path.platform) (fuel : nat)
  (p : string) (callbackOrApi middleware : value) (w : world) :
  let r := registerNpcApi pl (S (S fuel)) (VStr p) callbackOrApi middleware w
  in
  match callbackOrApi with
  | VFun _ =>
      r = Some (Return (AwaitListen (List.length (npcs w))),
                registered w callbackOrApi
                  (if truthy middleware then Some middleware else None)
                  (join pl "vortex" p))
      \/ r = Some (Return (Rejected (clock w)
                            (ZodError CallbackSchema middleware)), w)
  | VObj _ =>
      (exists ps w', r = Some (Return (All (clock w) ps), w'))
      \/ r = Some (Return (Rejected (clock w)
                            (ZodError NpcApiSchema callbackOrApi)), w)
  | _ =>
      r = Some (Return (Rejected (clock w)
                         (ZodError NpcApiSchema callbackOrApi)), w)
  end.
Proof.
  assert (Hbatch : forall cb e,
             isCallback cb = false -> Zod.npcApiSchema_parse cb = Throw e ->
             registerNpcApi pl (S (S fuel)) (VStr p) cb middleware w
             = Some (Return (Rejected (clock w) e), w)).
  { intros cb e Hc He. rewrite registerNpcApi_S.
    unfold async, bind, lift; simpl. now rewrite Hc, He. }
  cbv zeta. destruct callbackOrApi as [| |b|n|s|f|elems|api];
    try (apply Hbatch; reflexivity).
  - rewrite single_form.
    destruct (truthy middleware) eqn:Ht; [|now left].
    destruct middleware; try (now right); now left.
  - destruct (Zod.npcApiSchema_parse (VObj api)) as [api'|e] eqn:Ha.
    + destruct (valid_map_middleware _ _ Ha) as [E _].
      injection E as <-. rewrite batch_form by assumption. left. eauto.
    + right. rewrite (Hbatch (VObj api) e eq_refl Ha). simpl in Ha.
      destruct (lookup "middleware" api) as [[]|]; try discriminate;
        now injection Ha as <-.
Qed.

(** C6: in the batch form, a map the namespace schema refuses rejects the
    call with that validation error and leaves the world as it was: no
    endpoint is created, the factory is not called, nothing listens. *)
Theorem C6_invalid_map_rejected (pl : Path.platform) (fuel : nat)
  (ns : string) (callbackOrApi middleware : value) (e : error) (w : world) :
  isCallback callbackOrApi = false ->
  Zod.npcApiSchema_parse callbackOrApi = Throw e ->
  registerNpcApi pl (S fuel) (VStr ns) callbackOrApi middleware w
    = Some (Return (Rejected (clock w) e), w)
  /\ e = ZodError NpcApiSchema callbackOrApi.
Proof.
  intros Hc He. split.
  - rewrite registerNpcApi_S. unfold async, bind, lift; simpl.
    now rewrite Hc, He.
  - destruct callbackOrApi; simpl in He; try (now injection He as <-).
    destruct (lookup "middleware" props0) as [[]|]; try discriminate;
      now injection He as <-.
Qed.

Lemma C6_invalid_map_rejected_witness :
  let map := VObj [("a", VFun 1); ("middleware", VNum 3)] in
  registerNpcApi Path.posix 2 (VStr "x") map VUndefined world0
    = Some (Return (Rejected 0 (ZodError NpcApiSchema map)), world0).
Proof.
  exact (proj1 (C6_invalid_map_rejected Path.posix 1 "x"
                  (VObj [("a", VFun 1); ("middleware", VNum 3)]) VUndefined
                  (ZodError NpcApiSchema
                     (VObj [("a", VFun 1); ("middleware", VNum 3)]))
                  world0 eq_refl eq_refl)).
Defined.

(** C10: when the second argument is no handler, the third argument is
    never read: two calls that differ in it alone return the same promise
    and leave the same world. *)
Theorem C10_middleware_ignored_in_batch (pl : Path.platform) (fuel : nat)
  (pathOrNamespace callbackOrApi mw1 mw2 : value) (w : world) :
  isCallback callbackOrApi = false ->
  registerNpcApi pl fuel pathOrNamespace callbackOrApi mw1 w =
  registerNpcApi pl fuel pathOrNamespace callbackOrApi mw2 w.
Proof.
  intros Hc. destruct fuel as [|fuel]; [reflexivity|].
  rewrite !registerNpcApi_S. now rewrite Hc.
Qed.

Lemma C10_middleware_ignored_in_batch_witness :
  let map := VObj [("a", VFun 1); ("middleware", VObj [("a", VFun 2)])] in
  registerNpcApi Path.posix 2 (VStr "x") map (VFun 9) world0 =
  registerNpcApi Path.posix 2 (VStr "x") map VUndefined world0.
Proof.
  exact (C10_middleware_ignored_in_batch Path.posix 2 (VStr "x")
           (VObj [("a", VFun 1); ("middleware", VObj [("a", VFun 2)])])
           (VFun 9) VUndefined world0 eq_refl).
Defined.

(* ------------------------------------------------------------------ *)
(** *** The batch form *)

(** The batch form on a valid map: one promise and one endpoint for each
    handler property, in iteration order, and nothing logged. *)
Lemma batch_world (pl : Path.platform) (fuel : nat) (ns : string)
  (api : props) (mw : value) (w : world) :
  Zod.npcApiSchema_parse (VObj api) = Return api ->
  exists w',
    registerNpcApi pl (S (S fuel)) (VStr ns) (VObj api) mw w =
      Some (Return (All (clock w)
                      (map AwaitListen
                         (seq (List.length (npcs w))
                              (List.length (handler_properties api))))),
            w')
    /\ npcs w' = npcs w ++ map (endpoint_for pl ns api) (handler_properties api)
    /\ calls w' =
         calls w ++ calls_from pl (List.length (npcs w)) (flatten pl ns api)
    /\ logged w' = logged w /\ clock w' = clock w.
Proof.
  intros Hv. destruct (valid_map_middleware _ _ Hv) as [_ Hmw].
  exists (fold_left (register_one pl) (flatten pl ns api) w).
  rewrite (batch_form pl fuel ns api mw w Hv), fold_register_one.
  split; [|split; [|split; [|split]]]; cbn [npcs calls logged clock];
    try reflexivity.
  - rewrite (flatten_handler_properties pl ns api Hmw), length_map.
    reflexivity.
  - rewrite (flatten_handler_properties pl ns api Hmw), map_map.
    reflexivity.
Qed.

Lemma nth_error_endpoint (pl : Path.platform) (ns : string) (api : props)
  (l : list npc) (j : nat) (k : string) :
  nth_error (handler_properties api) j = Some k ->
  nth_error (l ++ map (endpoint_for pl ns api) (handler_properties api))
    (List.length l + j)
  = Some (endpoint_for pl ns api k).
Proof.
  intros Hk. rewrite nth_error_app2 by lia.
  replace (List.length l + j - List.length l) with j by lia.
  now rewrite nth_error_map, Hk.
Qed.

Lemma polls_fulfilled (w : world) (name : string -> string)
  (keys : list string) (n : nat) :
  (forall j k, nth_error keys j = Some k ->
     exists nn t, nth_error (npcs w) (n + j) = Some nn /\
                  npc_state nn = Listening (name k) t) ->
  Forall2 fulfilled_with
    (map (poll w) (map AwaitListen (seq n (List.length keys))))
    (map (fun k => VStr (name k)) keys).
Proof.
  revert n. induction keys as [|k keys IH]; intros n H; simpl.
  - constructor.
  - constructor.
    + destruct (H 0 k eq_refl) as (nn & t & Hn & Hs).
      rewrite Nat.add_0_r in Hn. unfold npc_endpoint.
      rewrite Hn, Hs. now exists t.
    + apply IH. intros j k' Hk'. destruct (H (S j) k' Hk') as (nn & t & Hn & Hs).
      exists nn, t. split; [|exact Hs].
      now replace (S n + j) with (n + S j) by lia.
Qed.

(** C4: for a valid namespace map the call resolves, once the transport
    has accepted every endpoint, to one identifier for each property whose
    value is a handler, in the iteration order of the map; the properties
    that are no handlers, the reserved one included, give no promise, no
    error and no log entry. *)
Theorem C4_batch_identifiers (pl : Path.platform) (fuel : nat) (ns : string)
  (api : props) (mw : value) (w : world)
  (schedule : list (nat * settlement)) :
  Zod.npcApiSchema_parse (VObj api) = Return api ->
  (forall j, j < List.length (handler_properties api) ->
             first_settlement schedule (List.length (npcs w) + j)
             = Some Accept) ->
  exists promises w' t,
    registerNpcApi pl (S (S fuel)) (VStr ns) (VObj api) mw w =
      Some (Return (All (clock w) promises), w')
    /\ List.length promises = List.length (handler_properties api)
    /\ ~ In "middleware" (handler_properties api)
    /\ poll (run schedule w') (All (clock w) promises) =
         Fulfilled t
           (VArr (map (fun k => VStr (join pl "vortex" (join pl ns k)))
                    (handler_properties api)))
    /\ logged (run schedule w') = logged w.
Proof.
  intros Hv Hall.
  destruct (batch_world pl fuel ns api mw w Hv) as (w' & Hr & Hn & _ & Hl & _).
  assert (HF : Forall2 fulfilled_with
                 (map (poll (run schedule w'))
                    (map AwaitListen
                       (seq (List.length (npcs w))
                          (List.length (handler_properties api)))))
                 (map (fun k => VStr (join pl "vortex" (join pl ns k)))
                    (handler_properties api))).
  { apply polls_fulfilled. intros j k Hk.
    assert (Hj : j < List.length (handler_properties api))
      by (apply nth_error_Some; now rewrite Hk).
    pose proof (nth_error_endpoint pl ns api (npcs w) j k Hk) as He.
    rewrite <- Hn in He.
    pose proof (run_first_settlement schedule w' _ _ _ He eq_refl) as H.
    rewrite (Hall j Hj) in H. destruct H as (t & _ & H).
    eexists _, t. split; [exact H|reflexivity]. }
  destruct (promise_all_fulfilled (clock w) _ _ HF) as [t Ht].
  eexists _, w', t. split; [exact Hr|]. split; [|split; [|split]].
  - now rewrite length_map, length_seq.
  - destruct (valid_map_middleware _ _ Hv) as [_ Hmw].
    unfold handler_properties. rewrite filter_In, Hmw.
    intros [_ H]. discriminate.
  - exact Ht.
  - destruct (run_frame schedule w') as (_ & -> & _). exact Hl.
Qed.

Lemma C4_batch_identifiers_witness :
  let map := VObj [("a", VFun 1); ("b", VNum 42);
                   ("middleware", VObj [("a", VFun 7)]); ("c", VFun 2)] in
  exists promises w' t,
    registerNpcApi Path.posix 2 (VStr "x") map VUndefined world0 =
      Some (Return (All 0 promises), w')
    /\ List.length promises = 2
    /\ poll (run [(1, Accept); (0, Accept)] w') (All 0 promises) =
         Fulfilled t (VArr [VStr "vortex/x/a"; VStr "vortex/x/c"])
    /\ logged (run [(1, Accept); (0, Accept)] w') = [].
Proof.
  assert (Hall : forall j,
             j < List.length
                   (handler_properties
                      [("a", VFun 1); ("b", VNum 42);
                       ("middleware", VObj [("a", VFun 7)]); ("c", VFun 2)]) ->
             first_settlement [(1, Accept); (0, Accept)]
               (List.length (npcs world0) + j) = Some Accept).
  { simpl. intros j Hj. destruct j as [|[|j]]; [reflexivity|reflexivity|lia]. }
  destruct (C4_batch_identifiers Path.posix 0 "x"
              [("a", VFun 1); ("b", VNum 42);
               ("middleware", VObj [("a", VFun 7)]); ("c", VFun 2)]
              VUndefined world0 [(1, Accept); (0, Accept)] eq_refl Hall)
    as (promises & w' & t & Hr & Hlen & _ & Hp & Hl).
  exists promises, w', t. repeat split; assumption.
Defined.

(** For a valid namespace map the endpoints created are those of the
    handler properties, in order; the endpoint of [k] carries the value
    the code reads at [map.middleware[k]] (the entry of the sub-map, or
    without one the member of [Object.prototype] named [k]) exactly when
    that is a handler, and none otherwise.  A key of the [middleware]
    sub-map whose own property is missing or no handler is no handler
    property: it gives no endpoint, and the call is not rejected. *)
Lemma batch_middleware_pairing (pl : Path.platform) (fuel : nat) (ns : string)
  (api : props) (mw : value) (w : world) :
  Zod.npcApiSchema_parse (VObj api) = Return api ->
  exists w',
    registerNpcApi pl (S (S fuel)) (VStr ns) (VObj api) mw w =
      Some (Return (All (clock w)
                      (map AwaitListen
                         (seq (List.length (npcs w))
                              (List.length (handler_properties api))))),
            w')
    /\ npcs w' = npcs w ++ map (endpoint_for pl ns api) (handler_properties api)
    /\ (forall k, In k (handler_properties api) <->
                  In k (map fst api) /\ isCallback (get (VObj api) k) = true)
    /\ (forall k,
          (exists m, npc_middleware (endpoint_for pl ns api k) = Some m /\
                     m = get (get (VObj api) "middleware") k)
          <-> isCallback (get (get (VObj api) "middleware") k) = true)
    /\ (forall k, isCallback (get (get (VObj api) "middleware") k) = false ->
                  npc_middleware (endpoint_for pl ns api k) = None).
Proof.
  intros Hv.
  destruct (batch_world pl fuel ns api mw w Hv) as (w' & Hr & Hn & _).
  exists w'. split; [exact Hr|]. split; [exact Hn|]. split; [|split].
  - intros k. unfold handler_properties. apply filter_In.
  - intros k. unfold endpoint_for, attached; simpl.
    destruct (isCallback (get (get (VObj api) "middleware") k)).
    + split; [reflexivity|]. intros _. eauto.
    + split; [|discriminate]. intros (m & H & _). discriminate.
  - intros k H. unfold endpoint_for, attached; simpl. now rewrite H.
Qed.

Lemma batch_middleware_pairing_example :
  let map := [("a", VFun 1); ("b", VNum 42); ("c", VFun 2);
              ("middleware", VObj [("a", VFun 7); ("b", VFun 8);
                                   ("c", VStr "no"); ("d", VFun 9)])] in
  exists w',
    registerNpcApi Path.posix 2 (VStr "x") (VObj map) VUndefined world0 =
      Some (Return (All 0 [AwaitListen 0; AwaitListen 1]), w')
    /\ npcs w' =
         [Npc (VFun 1) (Some (VFun 7)) [errorSink] (Pending "vortex/x/a");
          Npc (VFun 2) None [errorSink] (Pending "vortex/x/c")].
Proof.
  destruct (batch_middleware_pairing Path.posix 0 "x"
              [("a", VFun 1); ("b", VNum 42); ("c", VFun 2);
               ("middleware", VObj [("a", VFun 7); ("b", VFun 8);
                                    ("c", VStr "no"); ("d", VFun 9)])]
              VUndefined world0 eq_refl) as (w' & Hr & Hn & _).
  exists w'. split; [exact Hr|exact Hn].
Defined.

(** C7: the pairing of lines 55-57 reads [api.middleware[property]]
    through the prototype chain.  The map
    [{ valueOf: h1, a: h2, middleware: {} }] is valid and its
    [middleware] sub-map has no entry; the endpoint of [a] is created
    without middleware, but the endpoint of [valueOf] is created with
    the function [Object.prototype.valueOf] as its middleware. *)
Theorem C7_inherited_middleware :
  let map := [("valueOf", VFun 1); ("a", VFun 2); ("middleware", VObj [])] in
  Zod.npcApiSchema_parse (VObj map) = Return map
  /\ lookup "middleware" map = Some (VObj [])
  /\ lookup "valueOf" Object_prototype = Some (VFun 1009)
  /\ exists w',
       registerNpcApi Path.posix 2 (VStr "x") (VObj map) VUndefined world0
       = Some (Return (All 0 [AwaitListen 0; AwaitListen 1]), w')
       /\ npcs w' =
            [Npc (VFun 1) (Some (VFun 1009)) [errorSink]
               (Pending "vortex/x/valueOf");
             Npc (VFun 2) None [errorSink] (Pending "vortex/x/a")]
       /\ calls w' =
            [CallCreate 0 (VFun 1) (Some (VFun 1009)); CallOn 0 "error";
             CallListen 0 "vortex/x/valueOf";
             CallCreate 1 (VFun 2) None; CallOn 1 "error";
             CallListen 1 "vortex/x/a"].
Proof.
  cbv zeta. split; [reflexivity|]. split; [reflexivity|].
  split; [reflexivity|].
  destruct (batch_world Path.posix 0 "x"
              [("valueOf", VFun 1); ("a", VFun 2); ("middleware", VObj [])]
              VUndefined world0 eq_refl) as (w' & Hr & Hn & Hc & _).
  exists w'. split; [exact Hr|]. split; [exact Hn|exact Hc].
Qed.

(* ------------------------------------------------------------------ *)
(** *** Runtime errors and failing siblings *)

(** C8, as the claim states it, fails: on an error event that carries
    [undefined] the listener throws reading [error.message], and the
    event adds nothing to the log, also once the endpoint is listening. *)
Lemma C8_undefined_error_not_logged :
  exists w',
    registerNpcApi Path.posix 1 (VStr "ping") (VFun 1) VUndefined world0 =
      Some (Return (AwaitListen 0), w')
    /\ listeners w' 0 = [errorSink]
    /\ errorSink VUndefined = Throw (TypeError VUndefined)
    /\ poll (run_events [Settled 0 Accept; ErrorEvent 0 VUndefined] w')
         (AwaitListen 0) = Fulfilled 1 (VStr "vortex/ping")
    /\ logged (run_events [Settled 0 Accept; ErrorEvent 0 VUndefined] w')
       = [].
Proof.
  eexists. split; [reflexivity|]. repeat split; reflexivity.
Qed.

(** C8: the single form attaches the error sink to the new endpoint once,
    after creating it and before calling [listen].  Whatever the
    transport settles and whatever errors the endpoints emit afterwards,
    the promise of the registration is in the state the settlements alone
    lead to.  Each error event of the endpoint that carries an error
    value, neither [undefined] nor [null], adds exactly one entry to the
    log: level "warn", the error's message, the error.  On [undefined]
    or [null] the sink throws a TypeError and the event adds nothing. *)
Theorem C8_error_sink (pl : Path.platform) (fuel : nat) (p : string)
  (h : nat) (mwo : option nat) (w : world) (evs : list event) :
  let middleware :=
    match mwo with Some m => VFun m | None => VUndefined end in
  let ep := List.length (npcs w) in
  exists w',
    registerNpcApi pl (S fuel) (VStr p) (VFun h) middleware w =
      Some (Return (AwaitListen ep), w')
    /\ calls w' =
         calls w ++ [CallCreate ep (VFun h) (option_map VFun mwo);
                     CallOn ep "error";
                     CallListen ep (join pl "vortex" p)]
    /\ listeners w' ep = [errorSink]
    /\ (forall err,
          nullish err = false ->
          call_listeners (listeners w' ep) err
          = ([LogEntry "warn" (get err "message") err], None)
          /\ reported w' (ErrorEvent ep err)
             = [LogEntry "warn" (get err "message") err])
    /\ (forall err,
          nullish err = true ->
          call_listeners (listeners w' ep) err = ([], Some (TypeError err))
          /\ reported w' (ErrorEvent ep err) = [])
    /\ logged (run_events evs w') = logged w ++ flat_map (reported w') evs
    /\ poll (run_events evs w') (AwaitListen ep) =
       poll (run (settlements evs) w') (AwaitListen ep).
Proof.
  cbv zeta.
  exists (registered w (VFun h) (option_map VFun mwo) (join pl "vortex" p)).
  assert (Hl : listeners
                 (registered w (VFun h) (option_map VFun mwo)
                    (join pl "vortex" p)) (List.length (npcs w))
               = [errorSink]).
  { unfold listeners. now rewrite nth_error_registered. }
  split; [|split; [|split; [|split; [|split; [|split]]]]].
  - rewrite single_form. now destruct mwo.
  - reflexivity.
  - exact Hl.
  - intros err Hn. unfold reported. rewrite Hl.
    cbn [call_listeners]. unfold errorSink. rewrite Hn. split; reflexivity.
  - intros err Hn. unfold reported. rewrite Hl.
    cbn [call_listeners]. unfold errorSink. rewrite Hn. split; reflexivity.
  - now destruct (run_events_frame evs
                    (registered w (VFun h) (option_map VFun mwo)
                       (join pl "vortex" p))) as (_ & _ & _ & ->).
  - apply poll_ext. now destruct (run_events_frame evs
                    (registered w (VFun h) (option_map VFun mwo)
                       (join pl "vortex" p))) as (-> & _).
Qed.

Lemma C8_error_sink_witness :
  exists w',
    registerNpcApi Path.posix 1 (VStr "ping") (VFun 1) VUndefined world0 =
      Some (Return (AwaitListen 0), w')
    /\ logged (run_events
                 [Settled 0 Accept;
                  ErrorEvent 0 (VObj [("message", VStr "boom")]);
                  ErrorEvent 0 (VStr "again")] w')
       = [LogEntry "warn" (VStr "boom") (VObj [("message", VStr "boom")]);
          LogEntry "warn" VUndefined (VStr "again")]
    /\ poll (run_events
               [Settled 0 Accept;
                ErrorEvent 0 (VObj [("message", VStr "boom")]);
                ErrorEvent 0 (VStr "again")] w')
         (AwaitListen 0)
       = Fulfilled 1 (VStr "vortex/ping").
Proof.
  destruct (C8_error_sink Path.posix 0 "ping" 1 None world0
              [Settled 0 Accept;
               ErrorEvent 0 (VObj [("message", VStr "boom")]);
               ErrorEvent 0 (VStr "again")])
    as (w' & Hr & _).
  exists w'. split; [exact Hr|].
  injection Hr as <-. split; reflexivity.
Defined.

Lemma no_close_in_calls (pl : Path.platform) (regs : list registration)
  (n ep : nat) :
  ~ In (CallClose ep) (calls_from pl n regs).
Proof.
  revert n. induction regs as [|r regs IH]; intros n; simpl.
  - tauto.
  - intros [H|[H|[H|H]]]; try discriminate. now apply (IH (S n)).
Qed.

(** A pending sibling of the refused endpoint, not refused before it,
    is at the end no rejection earlier than or at the refusal. *)
Lemma sibling_later (w : world) (ep ep' : nat) (n : npc) (name : string)
  (reason : value) (pre post : list (nat * settlement)) :
  nth_error (npcs w) ep' = Some n -> npc_state n = Pending name ->
  ep' <> ep ->
  (forall r, first_settlement pre ep' <> Some (Refuse r)) ->
  later (S (clock w + List.length pre))
    (poll (run (pre ++ (ep, Refuse reason) :: post) w) (AwaitListen ep')).
Proof.
  intros Hn Hs Hne Hacc. unfold run. rewrite fold_left_app. simpl.
  fold (run pre w).
  fold (run post (settle (run pre w) (ep, Refuse reason))).
  set (w1 := settle (run pre w) (ep, Refuse reason)).
  assert (Hk : clock w1 = S (clock w + List.length pre)).
  { unfold w1, settle; simpl.
    now destruct (run_frame pre w) as (_ & _ & -> & _). }
  assert (Hsame : nth_error (npcs w1) ep' = nth_error (npcs (run pre w)) ep').
  { unfold w1, settle; simpl. rewrite nth_error_update.
    apply Nat.eqb_neq in Hne. now rewrite Hne. }
  pose proof (run_first_settlement pre w ep' n name Hn Hs) as H1.
  cbn [poll].
  destruct (first_settlement pre ep') as [[|r]|].
  - (* accepted before the refusal: listening, and left so *)
    destruct H1 as (t & _ & H1). rewrite <- Hsame in H1.
    rewrite (run_settled post w1 ep' _ H1) by (simpl; discriminate).
    exact I.
  - now contradiction (Hacc r).
  - (* still pending at the refusal *)
    rewrite <- Hsame in H1.
    pose proof (run_first_settlement post w1 ep' n name H1 Hs) as H2.
    destruct (first_settlement post ep') as [[|r]|].
    + destruct H2 as (t & _ & ->). exact I.
    + destruct H2 as (t & Ht & ->). simpl. now rewrite <- Hk.
    + rewrite H2, Hs. exact I.
Qed.

(** C9: in the batch form, when the transport refuses the [listen] of one
    endpoint before any refusal of a sibling, the aggregate is rejected
    with that refusal, at that instant, whatever is settled later.  The
    siblings accepted before are listening at the end under their names;
    the calls made are those of the registrations and no other: nothing
    is closed, nothing is listened on again. *)
Theorem C9_first_failure_wins (pl : Path.platform) (fuel : nat)
  (ns : string) (api : props) (mw : value) (w : world) (i : nat)
  (reason : value) (pre post : list (nat * settlement)) :
  Zod.npcApiSchema_parse (VObj api) = Return api ->
  i < List.length (handler_properties api) ->
  first_settlement pre (List.length (npcs w) + i) = None ->
  (forall j r, j < List.length (handler_properties api) ->
               first_settlement pre (List.length (npcs w) + j)
               <> Some (Refuse r)) ->
  exists promises w',
    registerNpcApi pl (S (S fuel)) (VStr ns) (VObj api) mw w =
      Some (Return (All (clock w) promises), w')
    /\ let w2 :=
         run (pre ++ (List.length (npcs w) + i, Refuse reason) :: post) w' in
       poll w2 (All (clock w) promises) =
         RejectedAt (S (clock w + List.length pre)) (ListenError reason)
       /\ (forall j k,
             nth_error (handler_properties api) j = Some k ->
             first_settlement pre (List.length (npcs w) + j) = Some Accept ->
             exists n t,
               nth_error (npcs w2) (List.length (npcs w) + j) = Some n /\
               npc_state n = Listening (join pl "vortex" (join pl ns k)) t)
       /\ calls w2 =
            calls w ++ calls_from pl (List.length (npcs w)) (flatten pl ns api)
       /\ forall ep,
            ~ In (CallClose ep)
                (calls_from pl (List.length (npcs w)) (flatten pl ns api)).
Proof.
  intros Hv Hi Hpre Hacc.
  destruct (batch_world pl fuel ns api mw w Hv)
    as (w' & Hr & Hn & Hc & _ & Hk).
  eexists _, w'. split; [exact Hr|]. cbv zeta.
  set (n0 := List.length (npcs w)) in *.
  set (keys := handler_properties api) in *.
  set (sched := pre ++ (n0 + i, Refuse reason) :: post).
  assert (Hnew : forall j k, nth_error keys j = Some k ->
                   nth_error (npcs w') (n0 + j)
                   = Some (endpoint_for pl ns api k)).
  { intros j k Hj. rewrite Hn. now apply nth_error_endpoint. }
  split; [|split; [|split]].
  - destruct (nth_error keys i) as [ki|] eqn:Hki;
      [|apply nth_error_None in Hki; lia].
    assert (Hsplit : seq n0 (List.length keys) =
                     seq n0 i ++ (n0 + i)
                       :: seq (S (n0 + i)) (List.length keys - S i)).
    { replace (List.length keys) with (i + S (List.length keys - S i))
        at 1 by lia.
      now rewrite seq_app. }
    cbn [poll]. rewrite Hsplit, !map_app. cbn [map poll].
    pose proof (settled_at w' (n0 + i) _ _ (Refuse reason) pre post
                  (Hnew i ki Hki) eq_refl
                  (first_settlement_none pre (n0 + i) Hpre)) as Hfail.
    fold sched in Hfail. rewrite Hfail. cbn [npc_state settled]. rewrite Hk.
    assert (Hlater : forall a b,
               (forall ep', In ep' (seq a b) -> n0 <= ep' < n0 + List.length keys
                                              /\ ep' <> n0 + i) ->
               Forall (later (S (clock w + List.length pre)))
                 (map (poll (run sched w')) (map AwaitListen (seq a b)))).
    { intros a b Hab. rewrite map_map. apply Forall_forall.
      intros st Hst. apply in_map_iff in Hst as (ep' & <- & Hin).
      destruct (Hab ep' Hin) as (Hrange & Hne).
      destruct (nth_error keys (ep' - n0)) as [k|] eqn:Hk';
        [|apply nth_error_None in Hk'; lia].
      pose proof (Hnew _ _ Hk') as He.
      replace (n0 + (ep' - n0)) with ep' in He by lia.
      rewrite <- Hk.
      apply (sibling_later w' (n0 + i) ep' _ _ reason pre post He eq_refl
               Hne).
      intros r. replace ep' with (n0 + (ep' - n0)) by lia.
      apply Hacc. lia. }
    apply promise_all_first_rejection; apply Hlater; intros ep' Hin;
      apply in_seq in Hin; lia.
  - intros j k Hj Hfirst.
    pose proof (Hnew j k Hj) as He.
    destruct (first_settlement_split pre (n0 + j) Accept Hfirst)
      as (pre1 & pre2 & Hpre12 & Hnot).
    unfold sched. rewrite Hpre12, <- app_assoc. cbn [app].
    rewrite (settled_at w' (n0 + j) _ _ Accept pre1 _ He eq_refl Hnot).
    eexists _, _. split; reflexivity.
  - destruct (run_frame sched w') as (-> & _). exact Hc.
  - intros ep. apply no_close_in_calls.
Qed.

Lemma C9_first_failure_wins_witness :
  let map := [("a", VFun 1); ("b", VFun 2); ("c", VFun 3)] in
  exists promises w',
    registerNpcApi Path.posix 2 (VStr "x") (VObj map) VUndefined world0 =
      Some (Return (All 0 promises), w')
    /\ poll (run [(0, Accept); (1, Refuse (VStr "taken"));
                  (2, Refuse (VStr "late"))] w')
         (All 0 promises)
       = RejectedAt 2 (ListenError (VStr "taken"))
    /\ exists n t,
         nth_error
           (npcs (run [(0, Accept); (1, Refuse (VStr "taken"));
                       (2, Refuse (VStr "late"))] w')) 0 = Some n /\
         npc_state n = Listening "vortex/x/a" t.
Proof.
  assert (Hi : 1 < List.length
                     (handler_properties
                        [("a", VFun 1); ("b", VFun 2); ("c", VFun 3)]))
    by (simpl; lia).
  assert (Hacc : forall j r,
             j < List.length
                   (handler_properties
                      [("a", VFun 1); ("b", VFun 2); ("c", VFun 3)]) ->
             first_settlement [(0, Accept)] (List.length (npcs world0) + j)
             <> Some (Refuse r)).
  { simpl. intros j r _. destruct j; discriminate. }
  destruct (C9_first_failure_wins Path.posix 0 "x"
              [("a", VFun 1); ("b", VFun 2); ("c", VFun 3)] VUndefined world0
              1 (VStr "taken") [(0, Accept)] [(2, Refuse (VStr "late"))]
              eq_refl Hi eq_refl Hacc)
    as (promises & w' & Hr & Hp & Hs & _).
  exists promises, w'. split; [exact Hr|]. split; [exact Hp|].
  exact (Hs 0 "a" eq_refl eq_refl).
Defined.

(** A recursion bound of two is enough for every call: a larger one
    changes nothing. *)
Lemma registerNpcApi_fuel (pl : Path.platform) (fuel : nat)
  (p cb mw : value) (w : world) :
  registerNpcApi pl (S (S fuel)) p cb mw w = registerNpcApi pl 2 p cb mw w.
Proof.
  destruct (Zod.string_parse p) as [ns|e] eqn:Hp.
  - destruct p; try discriminate. injection Hp as ->.
    destruct (isCallback cb) eqn:Hc.
    + destruct (isCallback_fun _ Hc) as [h ->]. now rewrite !single_form.
    + destruct (Zod.npcApiSchema_parse cb) as [api|e] eqn:Ha.
      * destruct (valid_map_middleware _ _ Ha) as [-> _].
        now rewrite !batch_form by assumption.
      * rewrite !registerNpcApi_S. unfold async, bind, lift; simpl.
        now rewrite Hc, Ha.
  - rewrite !registerNpcApi_S. unfold async, bind, lift. now rewrite Hp.
Qed.

(* ================================================================== *)
(** ** Further properties of [registerNpcApi] *)
(* ================================================================== *)

(** In the single form a third argument that is no function is read for
    its truthiness only: a falsy one ([undefined], [null], [false], [0],
    the empty string) is dropped without validation and the endpoint is
    created without middleware; a truthy one is refused by the callback
    schema before anything is created. *)
Theorem single_form_non_function_middleware (pl : Path.platform)
  (fuel : nat) (p : string) (h : nat) (mw : value) (w : world) :
  isCallback mw = false ->
  registerNpcApi pl (S fuel) (VStr p) (VFun h) mw w =
  if truthy mw
  then Some (Return (Rejected (clock w) (ZodError CallbackSchema mw)), w)
  else Some (Return (AwaitListen (List.length (npcs w))),
             registered w (VFun h) None (join pl "vortex" p)).
Proof.
  intros Hmw. rewrite single_form.
  destruct (truthy mw); [|reflexivity].
  destruct mw; try reflexivity. discriminate.
Qed.

Lemma single_form_non_function_middleware_witness :
  registerNpcApi Path.posix 1 (VStr "ping") (VFun 1) (VNum 0) world0 =
    Some (Return (AwaitListen 0),
          registered world0 (VFun 1) None "vortex/ping")
  /\ registerNpcApi Path.posix 1 (VStr "ping") (VFun 1) (VStr "mw") world0 =
       Some (Return (Rejected 0 (ZodError CallbackSchema (VStr "mw"))),
             world0).
Proof.
  split.
  - exact (single_form_non_function_middleware Path.posix 0 "ping" 1
             (VNum 0) world0 eq_refl).
  - exact (single_form_non_function_middleware Path.posix 0 "ping" 1
             (VStr "mw") world0 eq_refl).
Defined.

(** The promise of a single registration follows the first settlement of
    its endpoint: pending while there is none, fulfilled with the name
    listened on when the transport accepts, rejected with the transport's
    reason when it refuses; later settlements change nothing. *)
Theorem single_form_outcome (pl : Path.platform) (fuel : nat) (p : string)
  (h : nat) (mw : value) (w : world) (schedule : list (nat * settlement)) :
  truthy mw = false ->
  exists w',
    registerNpcApi pl (S fuel) (VStr p) (VFun h) mw w =
      Some (Return (AwaitListen (List.length (npcs w))), w')
    /\ match first_settlement schedule (List.length (npcs w)) with
       | None =>
           poll (run schedule w') (AwaitListen (List.length (npcs w)))
           = StillPending
       | Some Accept =>
           exists t, clock w < t /\
             poll (run schedule w') (AwaitListen (List.length (npcs w)))
             = Fulfilled t (VStr (join pl "vortex" p))
       | Some (Refuse reason) =>
           exists t, clock w < t /\
             poll (run schedule w') (AwaitListen (List.length (npcs w)))
             = RejectedAt t (ListenError reason)
       end.
Proof.
  intros Hmw. rewrite single_form, Hmw. eexists. split; [reflexivity|].
  pose proof (run_first_settlement schedule _ _ _ _
                (nth_error_registered w (VFun h) None (join pl "vortex" p))
                eq_refl) as H.
  cbn [poll].
  destruct (first_settlement schedule (List.length (npcs w))) as [[|r]|].
  - destruct H as (t & Ht & ->). exists t. split; [exact Ht|reflexivity].
  - destruct H as (t & Ht & ->). exists t. split; [exact Ht|reflexivity].
  - rewrite H. reflexivity.
Qed.

Lemma single_form_outcome_witness :
  exists w',
    registerNpcApi Path.posix 1 (VStr "ping") (VFun 1) VUndefined world0 =
      Some (Return (AwaitListen 0), w')
    /\ exists t, 0 < t /\
         poll (run [(0, Refuse (VStr "in use")); (0, Accept)] w')
           (AwaitListen 0)
         = RejectedAt t (ListenError (VStr "in use")).
Proof.
  exact (single_form_outcome Path.posix 0 "ping" 1 VUndefined world0
           [(0, Refuse (VStr "in use")); (0, Accept)] eq_refl).
Defined.

Lemma for_in_no_handlers (pl : Path.platform)
  (self : value -> value -> value -> M promise) (ns : string) (api : props)
  (keys : list string) (promises : list promise) (w : world) :
  filter (fun k => isCallback (get (VObj api) k)) keys = [] ->
  for_in pl self ns api keys promises w = Some (Return promises, w).
Proof.
  induction keys as [|k keys IH]; cbn [for_in filter]; [reflexivity|].
  destruct (isCallback (get (VObj api) k)); [discriminate|].
  intros H. cbn [negb]. now apply IH.
Qed.

(** A valid map without a handler property (the empty map, a map of
    data, a map with only a [middleware] sub-map) makes no call at all and
    resolves at once to the empty sequence; no nested call is needed. *)
Theorem batch_without_handlers (pl : Path.platform) (fuel : nat)
  (ns : string) (api : props) (mw : value) (w : world) :
  Zod.npcApiSchema_parse (VObj api) = Return api ->
  handler_properties api = [] ->
  registerNpcApi pl (S fuel) (VStr ns) (VObj api) mw w =
    Some (Return (All (clock w) []), w)
  /\ poll w (All (clock w) []) = Fulfilled (clock w) (VArr []).
Proof.
  intros Hv Hnone. split; [|reflexivity].
  rewrite registerNpcApi_S. unfold async.
  unfold bind at 1. cbn [lift Zod.string_parse].
  change (isCallback (VObj api)) with false. cbv iota.
  unfold bind at 1. unfold lift at 1. rewrite Hv.
  unfold bind. now rewrite (for_in_no_handlers pl _ ns api _ [] w Hnone).
Qed.

Lemma batch_without_handlers_witness :
  let map := [("version", VNum 3);
              ("middleware", VObj [("ping", VFun 1)])] in
  registerNpcApi Path.posix 1 (VStr "x") (VObj map) VUndefined world0 =
    Some (Return (All 0 []), world0)
  /\ poll world0 (All 0 []) = Fulfilled 0 (VArr []).
Proof.
  exact (batch_without_handlers Path.posix 0 "x"
           [("version", VNum 3); ("middleware", VObj [("ping", VFun 1)])]
           VUndefined world0 eq_refl eq_refl).
Defined.

Lemma no_close_in_registered (ep ep' : nat) (cb : value) (m : option value)
  (name : string) :
  ~ In (CallClose ep')
      [CallCreate ep cb m; CallOn ep "error"; CallListen ep name].
Proof. intros [H|[H|[H|[]]]]; discriminate. Qed.

(** Whatever its arguments, a call only adds to the world: the endpoints
    there were are left as they are, nothing is logged, no settlement is
    awaited; every endpoint the call creates has the error sink as its
    only error listener and has been asked to listen; no endpoint is
    closed. *)
Theorem registration_only_appends (pl : Path.platform) (fuel : nat)
  (p cb mw : value) (w : world) :
  exists pr w' new cs,
    registerNpcApi pl (S (S fuel)) p cb mw w = Some (Return pr, w')
    /\ npcs w' = npcs w ++ new
    /\ Forall (fun n => npc_on_error n = [errorSink] /\
                        exists name, npc_state n = Pending name) new
    /\ calls w' = calls w ++ cs
    /\ (forall ep, ~ In (CallClose ep) cs)
    /\ logged w' = logged w /\ clock w' = clock w.
Proof.
  assert (Hsame : forall pr,
             registerNpcApi pl (S (S fuel)) p cb mw w = Some (Return pr, w) ->
             exists pr w' new cs,
               registerNpcApi pl (S (S fuel)) p cb mw w = Some (Return pr, w')
               /\ npcs w' = npcs w ++ new
               /\ Forall (fun n => npc_on_error n = [errorSink] /\
                                   exists name, npc_state n = Pending name) new
               /\ calls w' = calls w ++ cs
               /\ (forall ep, ~ In (CallClose ep) cs)
               /\ logged w' = logged w /\ clock w' = clock w).
  { intros pr H. exists pr, w, [], []. rewrite !app_nil_r.
    repeat split; auto. }
  assert (Hone : forall cb' m name,
             registerNpcApi pl (S (S fuel)) p cb mw w
             = Some (Return (AwaitListen (List.length (npcs w))),
                     registered w cb' m name) ->
             exists pr w' new cs,
               registerNpcApi pl (S (S fuel)) p cb mw w = Some (Return pr, w')
               /\ npcs w' = npcs w ++ new
               /\ Forall (fun n => npc_on_error n = [errorSink] /\
                                   exists name, npc_state n = Pending name) new
               /\ calls w' = calls w ++ cs
               /\ (forall ep, ~ In (CallClose ep) cs)
               /\ logged w' = logged w /\ clock w' = clock w).
  { intros cb' m name H. eexists _, _, _, _. split; [exact H|].
    unfold registered; cbn [npcs calls logged clock].
    split; [reflexivity|]. split.
    - constructor; [|constructor]. simpl. eauto.
    - split; [reflexivity|]. split; [|auto].
      intros ep. apply no_close_in_registered. }
  destruct (Zod.string_parse p) as [ns|e] eqn:Hp.
  - destruct p; try discriminate. injection Hp as ->.
    destruct (isCallback cb) eqn:Hc.
    + destruct (isCallback_fun _ Hc) as [h ->].
      pose proof (single_form pl (S fuel) ns h mw w) as H.
      destruct (truthy mw); [destruct mw|]; eauto.
    + destruct (Zod.npcApiSchema_parse cb) as [api|e] eqn:Ha.
      * destruct (valid_map_middleware _ _ Ha) as [-> _].
        destruct (batch_world pl fuel ns api mw w Ha)
          as (w' & Hr & Hn & Hcs & Hl & Hk).
        eexists _, w', _, _. split; [exact Hr|]. split; [exact Hn|].
        split; [|split; [exact Hcs|split; [|auto]]].
        -- apply Forall_forall. intros n Hin.
           apply in_map_iff in Hin as (k & <- & _). simpl. eauto.
        -- intros ep. apply no_close_in_calls.
      * apply (Hsame (Rejected (clock w) e)).
        rewrite registerNpcApi_S. unfold async, bind, lift; simpl.
        now rewrite Hc, Ha.
  - apply (Hsame (Rejected (clock w) e)).
    rewrite registerNpcApi_S. unfold async, bind, lift. now rewrite Hp.
Qed.

(* ------------------------------------------------------------------ *)
(** *** The names of a namespace *)

Module NestedPaths.
Import Path PathFacts.

Lemma plain_forallb (cs : chars) :
  plain cs = true -> forallb plain_char cs = true.
Proof. intros H. now destruct (plain_parts cs H) as (_ & _ & _ & H4). Qed.

Lemma segments_three (pl : platform) (a b c : chars) :
  plain a = true -> plain b = true -> plain c = true ->
  segments (is_sep pl) (a ++ sep pl :: b ++ sep pl :: c) = [a; b; c].
Proof.
  intros Ha Hb Hc.
  rewrite segments_app by (auto using plain_forallb, is_sep_sep).
  rewrite segments_app by (auto using plain_forallb, is_sep_sep).
  now rewrite segments_plain by auto using plain_forallb.
Qed.

Lemma normalizeString_three (pl : platform) (allow : bool) (a b c : chars) :
  plain a = true -> plain b = true -> plain c = true ->
  normalizeString (a ++ sep pl :: b ++ sep pl :: c) allow (sep pl) (is_sep pl)
  = a ++ sep pl :: b ++ sep pl :: c.
Proof.
  intros Ha Hb Hc. unfold normalizeString.
  rewrite segments_three by assumption. simpl.
  rewrite !normalizeStep_plain by assumption. simpl.
  destruct (plain_cons a Ha) as (x & xs & -> & _).
  destruct (plain_cons b Hb) as (y & ys & -> & _). reflexivity.
Qed.

Lemma last_char_three (pl : platform) (a b c : chars) :
  plain c = true ->
  last_char (is_sep pl) (a ++ sep pl :: b ++ sep pl :: c) = false.
Proof.
  intros Hc.
  replace (a ++ sep pl :: b ++ sep pl :: c)
    with ((a ++ sep pl :: b ++ [sep pl]) ++ c)
    by (rewrite <- !app_assoc; simpl; now rewrite <- app_assoc).
  now apply last_char_plain.
Qed.

Lemma posix_normalize_three (a b c : chars) :
  plain a = true -> plain b = true -> plain c = true ->
  posix_normalize (a ++ CHAR_FORWARD_SLASH :: b ++ CHAR_FORWARD_SLASH :: c)
  = a ++ CHAR_FORWARD_SLASH :: b ++ CHAR_FORWARD_SLASH :: c.
Proof.
  intros Ha Hb Hc. destruct (plain_cons a Ha) as (x & xs & -> & Hx).
  set (path := (x :: xs) ++ CHAR_FORWARD_SLASH :: b ++ CHAR_FORWARD_SLASH :: c).
  assert (N : forall allow,
             normalizeString path allow CHAR_FORWARD_SLASH isPosixPathSeparator
             = path)
    by (intro; exact (normalizeString_three posix allow _ _ _ Ha Hb Hc)).
  assert (F : first_char isPosixPathSeparator path = false)
    by exact (plain_char_not_sep posix x Hx).
  assert (L : last_char isPosixPathSeparator path = false)
    by exact (last_char_three posix (x :: xs) b c Hc).
  unfold posix_normalize. rewrite F, L, N. reflexivity.
Qed.

Lemma win32_normalize_three (a b c : chars) :
  plain a = true -> plain b = true -> plain c = true ->
  win32_normalize (a ++ CHAR_BACKWARD_SLASH :: b ++ CHAR_BACKWARD_SLASH :: c)
  = a ++ CHAR_BACKWARD_SLASH :: b ++ CHAR_BACKWARD_SLASH :: c.
Proof.
  intros Ha Hb Hc. destruct (plain_cons a Ha) as (x & xs & -> & Hx).
  pose proof (plain_char_not_sep win32 x Hx) as Hs. simpl in Hs.
  set (path := (x :: xs) ++ CHAR_BACKWARD_SLASH :: b
                 ++ CHAR_BACKWARD_SLASH :: c).
  assert (N : normalizeString path true CHAR_BACKWARD_SLASH isPathSeparator
              = path)
    by exact (normalizeString_three win32 true _ _ _ Ha Hb Hc).
  assert (L : last_char isPathSeparator path = false)
    by exact (last_char_three win32 (x :: xs) b c Hc).
  assert (E : exists c1 rest2,
             path = x :: c1 :: rest2 /\ Ascii.eqb c1 CHAR_COLON = false).
  { unfold path. pose proof (plain_forallb _ Ha) as Ha4.
    destruct xs as [|c1 rest2]; simpl; [eauto|].
    eexists c1, _. split; [reflexivity|].
    simpl in Ha4. apply andb_prop in Ha4 as [_ Ha4].
    apply andb_prop in Ha4 as [Hc1 _]. unfold plain_char in Hc1.
    apply andb_prop in Hc1 as [_ Hc1]. now apply negb_true_iff in Hc1. }
  destruct E as (c1 & rest2 & E & Hc1).
  rewrite E in N, L |- *.
  rewrite win32_normalize_relative by assumption. cbv zeta.
  rewrite N, L. reflexivity.
Qed.

Lemma list_ascii_of_string_app (a b : string) :
  list_ascii_of_string (a ++ b) =
  list_ascii_of_string a ++ list_ascii_of_string b.
Proof. induction a as [|c a IH]; simpl; [reflexivity|now rewrite IH]. Qed.

(** A plain segment joined with two plain segments already joined. *)
Lemma join_nested (pl : platform) (a b c : string) :
  plain_segment a = true -> plain_segment b = true ->
  plain_segment c = true ->
  join pl [a; join pl [b; c]] =
  (a ++ String (sep pl) (b ++ String (sep pl) c))%string.
Proof.
  unfold plain_segment. intros Ha Hb Hc.
  rewrite (join_plain pl b c Hb Hc).
  destruct (plain_parts _ Ha) as (Ha1 & _).
  destruct (plain_cons _ Hb) as (y & ys & Eb & _).
  unfold join. cbn [map]. rewrite list_ascii_of_string_app.
  cbn [list_ascii_of_string].
  set (la := list_ascii_of_string a) in *.
  set (lb := list_ascii_of_string b) in *.
  set (lc := list_ascii_of_string c) in *.
  match goal with
  | |- string_of_list_ascii ?m = _ =>
      assert (E : m = la ++ sep pl :: lb ++ sep pl :: lc)
  end.
  { assert (Hne : is_empty (lb ++ sep pl :: lc) = false)
      by (rewrite Eb; reflexivity).
    destruct pl.
    - unfold posix_join, glue. cbn [filter]. rewrite Ha1, Hne.
      cbn [negb intercalate]. now apply posix_normalize_three.
    - unfold win32_join. cbn [filter]. rewrite Ha1, Hne.
      cbn [negb intercalate].
      destruct (plain_cons _ Ha) as (x & xs & Ea & Hx).
      pose proof (plain_char_not_sep win32 x Hx) as Hs. simpl in Hs.
      rewrite win32_slashes_relative
        by (rewrite Ea; simpl; assumption).
      now apply win32_normalize_three. }
  rewrite E, !string_of_list_ascii_app. simpl.
  rewrite string_of_list_ascii_app. simpl.
  unfold la, lb, lc. now rewrite !string_of_list_ascii_of_string.
Qed.

End NestedPaths.

(** The endpoint of a handler property [k] of namespace [ns], both plain
    segments, listens under "vortex", [ns] and [k] joined by the
    separator of the platform: the root segment comes first, the
    namespace is kept. *)
Theorem namespace_names (pl : Path.platform) (fuel : nat) (ns : string)
  (api : props) (mw : value) (w : world) :
  Zod.npcApiSchema_parse (VObj api) = Return api ->
  Path.plain_segment ns = true ->
  exists promises w',
    registerNpcApi pl (S (S fuel)) (VStr ns) (VObj api) mw w =
      Some (Return (All (clock w) promises), w')
    /\ forall j k,
         nth_error (handler_properties api) j = Some k ->
         Path.plain_segment k = true ->
         exists n,
           nth_error (npcs w') (List.length (npcs w) + j) = Some n /\
           npc_state n =
           Pending ("vortex" ++ String (Path.sep pl)
                                  (ns ++ String (Path.sep pl) k)).
Proof.
  intros Hv Hns.
  destruct (batch_world pl fuel ns api mw w Hv) as (w' & Hr & Hn & _).
  eexists _, w'. split; [exact Hr|]. intros j k Hk Hplain.
  exists (endpoint_for pl ns api k). split.
  - rewrite Hn. now apply nth_error_endpoint.
  - unfold endpoint_for, join; simpl.
    now rewrite (NestedPaths.join_nested pl "vortex" ns k eq_refl Hns Hplain).
Qed.

Lemma namespace_names_witness :
  exists promises w',
    registerNpcApi Path.win32 2 (VStr "nexus")
      (VObj [("getGames", VFun 1)]) VUndefined world0 =
      Some (Return (All 0 promises), w')
    /\ exists n, nth_error (npcs w') 0 = Some n /\
                 npc_state n = Pending "vortex\nexus\getGames".
Proof.
  destruct (namespace_names Path.win32 0 "nexus" [("getGames", VFun 1)]
              VUndefined world0 eq_refl eq_refl)
    as (promises & w' & Hr & Hn).
  exists promises, w'. split; [exact Hr|].
  exact (Hn 0 "getGames" eq_refl eq_refl).
Defined.

(** Under the namespace "." a handler property [k] that is a plain
    segment listens directly under the root: "vortex", the separator and
    [k]. *)
Theorem root_namespace_names (pl : Path.platform) (fuel : nat)
  (api : props) (mw : value) (w : world) :
  Zod.npcApiSchema_parse (VObj api) = Return api ->
  exists promises w',
    registerNpcApi pl (S (S fuel)) (VStr ".") (VObj api) mw w =
      Some (Return (All (clock w) promises), w')
    /\ forall j k,
         nth_error (handler_properties api) j = Some k ->
         Path.plain_segment k = true ->
         exists n,
           nth_error (npcs w') (List.length (npcs w) + j) = Some n /\
           npc_state n = Pending ("vortex" ++ String (Path.sep pl) k).
Proof.
  intros Hv.
  destruct (batch_world pl fuel "." api mw w Hv) as (w' & Hr & Hn & _).
  eexists _, w'. split; [exact Hr|]. intros j k Hk Hplain.
  exists (endpoint_for pl "." api k). split.
  - rewrite Hn. now apply nth_error_endpoint.
  - unfold endpoint_for, join; simpl.
    rewrite (PathFacts.join_dot pl k Hplain).
    now rewrite (PathFacts.join_plain pl "vortex" k eq_refl Hplain).
Qed.

Lemma root_namespace_names_witness :
  exists promises w',
    registerNpcApi Path.posix 2 (VStr ".")
      (VObj [("getMods", VFun 1)]) VUndefined world0 =
      Some (Return (All 0 promises), w')
    /\ exists n, nth_error (npcs w') 0 = Some n /\
                 npc_state n = Pending "vortex/getMods".
Proof.
  destruct (root_namespace_names Path.posix 0 [("getMods", VFun 1)]
              VUndefined world0 eq_refl)
    as (promises & w' & Hr & Hn).
  exists promises, w'. split; [exact Hr|].
  exact (Hn 0 "getMods" eq_refl eq_refl).
Defined.

Lemma first_rejection_no_rejection (sts : list promiseState) :
  Forall (fun st => forall t e, st <> RejectedAt t e) sts ->
  first_rejection sts = None.
Proof.
  induction 1 as [|st sts Hst _ IH]; simpl; [reflexivity|].
  rewrite IH. destruct st as [|t v|t e]; try reflexivity.
  now contradiction (Hst t e).
Qed.

Lemma all_fulfilled_pending (sts : list promiseState) :
  In StillPending sts -> forall time, all_fulfilled time sts = None.
Proof.
  induction sts as [|st sts IH]; intros Hin time; [destruct Hin|].
  destruct st as [|t v|t e]; simpl; try reflexivity.
  destruct Hin as [Hin|Hin]; [discriminate|].
  now rewrite (IH Hin).
Qed.

(** The aggregate of a batch waits for every registration: as long as the
    transport has settled one of the new endpoints not at all, and has
    refused none, the aggregate is pending, however many of the others
    are listening already. *)
Theorem batch_waits_for_all (pl : Path.platform) (fuel : nat) (ns : string)
  (api : props) (mw : value) (w : world) (i : nat)
  (schedule : list (nat * settlement)) :
  Zod.npcApiSchema_parse (VObj api) = Return api ->
  i < List.length (handler_properties api) ->
  first_settlement schedule (List.length (npcs w) + i) = None ->
  (forall j r, j < List.length (handler_properties api) ->
               first_settlement schedule (List.length (npcs w) + j)
               <> Some (Refuse r)) ->
  exists promises w',
    registerNpcApi pl (S (S fuel)) (VStr ns) (VObj api) mw w =
      Some (Return (All (clock w) promises), w')
    /\ poll (run schedule w') (All (clock w) promises) = StillPending.
Proof.
  intros Hv Hi Hnone Hacc.
  destruct (batch_world pl fuel ns api mw w Hv) as (w' & Hr & Hn & _).
  eexists _, w'. split; [exact Hr|].
  set (n0 := List.length (npcs w)) in *.
  set (keys := handler_properties api) in *.
  assert (Hstate : forall j, j < List.length keys ->
             exists k,
               nth_error (npcs w') (n0 + j) = Some (endpoint_for pl ns api k)).
  { intros j Hj. destruct (nth_error keys j) as [k|] eqn:Hk;
      [|apply nth_error_None in Hk; lia].
    exists k. rewrite Hn. now apply nth_error_endpoint. }
  cbn [poll]. unfold promise_all.
  rewrite first_rejection_no_rejection.
  - rewrite all_fulfilled_pending; [reflexivity|].
    rewrite map_map. apply in_map_iff. exists (n0 + i). split.
    + destruct (Hstate i Hi) as (k & Hk).
      pose proof (run_first_settlement schedule w' _ _ _ Hk eq_refl) as H.
      rewrite Hnone in H. cbn [poll]. now rewrite H.
    + apply in_seq. lia.
  - rewrite map_map. apply Forall_forall. intros st Hst.
    apply in_map_iff in Hst as (ep & <- & Hin). apply in_seq in Hin.
    destruct (Hstate (ep - n0)) as (k & Hk); [lia|].
    replace (n0 + (ep - n0)) with ep in Hk by lia.
    pose proof (run_first_settlement schedule w' _ _ _ Hk eq_refl) as H.
    pose proof (Hacc (ep - n0)) as Hno.
    replace (n0 + (ep - n0)) with ep in Hno by lia.
    cbn [poll].
    destruct (first_settlement schedule ep) as [[|r]|].
    + destruct H as (t & _ & ->). simpl. discriminate.
    + exfalso. apply (Hno r); [lia|reflexivity].
    + rewrite H. simpl. discriminate.
Qed.

Lemma batch_waits_for_all_witness :
  exists promises w',
    registerNpcApi Path.posix 2 (VStr "x")
      (VObj [("a", VFun 1); ("b", VFun 2)]) VUndefined world0 =
      Some (Return (All 0 promises), w')
    /\ poll (run [(0, Accept)] w') (All 0 promises) = StillPending.
Proof.
  assert (Hi : 1 < List.length
                     (handler_properties [("a", VFun 1); ("b", VFun 2)]))
    by (simpl; lia).
  assert (Hacc : forall j r,
             j < List.length
                   (handler_properties [("a", VFun 1); ("b", VFun 2)]) ->
             first_settlement [(0, Accept)] (List.length (npcs world0) + j)
             <> Some (Refuse r)).
  { simpl. intros j r _. destruct j; discriminate. }
  exact (batch_waits_for_all Path.posix 0 "x" [("a", VFun 1); ("b", VFun 2)]
           VUndefined world0 1 [(0, Accept)] eq_refl Hi eq_refl Hacc).
Defined.

(* ================================================================== *)
(** ** Properties of [getNexus] *)
(* ================================================================== *)

Module NexusApiFacts.
Import NexusApi.

Section Facts.

Variable app_name app_version : string.
Variable ensureLoggedIn : option (value -> option value * value).
Variable currentGame : string + value.
Variable Nexus_create : string -> string -> string -> string -> client + value.

Lemma login_frame (s : state) :
  nexusApi (snd (login ensureLoggedIn s)) = nexusApi s
  /\ exists new, trace (snd (login ensureLoggedIn s)) = trace s ++ new
                 /\ forall k n v g, ~ In (CallNexusCreate k n v g) new.
Proof.
  unfold login. destruct ensureLoggedIn as [f|].
  - destruct (f (confidential_account s)) as [rejection account']. simpl.
    split; [reflexivity|]. exists [CallEnsureLoggedIn].
    split; [reflexivity|]. intros k n v g [H|[]]. discriminate.
  - simpl. split; [reflexivity|]. exists []. rewrite app_nil_r.
    split; [reflexivity|]. intros k n v g [].
Qed.





(** A call that does not resolve leaves the cached client as it was. *)
Theorem getNexus_failure_keeps_cache (s s' : state) (ans : answer) :
  getNexus app_name app_version ensureLoggedIn currentGame Nexus_create s = (ans, s') ->
  (forall c, ans <> Resolved c) ->
  nexusApi s' = nexusApi s.
Proof.
  unfold getNexus, getAccount.
  destruct (parse_account (confidential_account s)) as [a|e] eqn:Ha.
  - destruct (cached s a) as [c0|] eqn:Hc.
    + intros E Hno. injection E as <- _. now contradiction (Hno c0).
    + pose proof (login_frame (called CallGetApplication s)) as [Hl _].
      destruct (login ensureLoggedIn (called CallGetApplication s))
        as [[e|] s2]; simpl in Hl.
      * intros E _. now injection E as _ <-.
      * destruct (parse_account (confidential_account s2)) as [a'|e];
          [|intros E _; now injection E as _ <-].
        destruct (apiKey a') as [key|];
          [|intros E _; now injection E as _ <-].
        destruct (String.eqb key ""); cbn [negb];
          [intros E _; now injection E as _ <-|].
        destruct currentGame as [gameId|reason];
          [|intros E _; now injection E as _ <-].
        destruct (Nexus_create key app_name app_version gameId) as [c1|reason].
        -- intros E Hno. injection E as <- _. now contradiction (Hno c1).
        -- intros E _. now injection E as _ <-.
  - intros E _. now injection E as _ <-.
Qed.

(** [Nexus.create] is called only with the API key, not empty, that the
    account in the state holds after the login, and with the name and the
    version of the application; without such a key no client is created
    and the promise is rejected without a reason. *)
Theorem getNexus_creates_for_current_key (s s' : state) (ans : answer) :
  getNexus app_name app_version ensureLoggedIn currentGame Nexus_create s = (ans, s') ->
  exists new,
    trace s' = trace s ++ new
    /\ forall key name version gameId,
         In (CallNexusCreate key name version gameId) new ->
         key <> "" /\ name = app_name /\ version = app_version
         /\ exists a, parse_account (confidential_account s') = Ok a
                      /\ apiKey a = Some key.
Proof.
  assert (Hnone : forall st, st = s' -> trace st = trace s ->
            exists new,
              trace s' = trace s ++ new
              /\ forall key name version gameId,
                   In (CallNexusCreate key name version gameId) new ->
                   key <> "" /\ name = app_name /\ version = app_version
                   /\ exists a, parse_account (confidential_account s') = Ok a
                                /\ apiKey a = Some key).
  { intros st <- Ht. exists []. rewrite app_nil_r. split; [exact Ht|].
    intros ? ? ? ? []. }
  unfold getNexus, getAccount.
  destruct (parse_account (confidential_account s)) as [a|e] eqn:Ha;
    [|intros E; injection E as _ E; now apply (Hnone s)].
  destruct (cached s a) as [c0|] eqn:Hc;
    [intros E; injection E as _ E; now apply (Hnone s)|].
  pose proof (login_frame (called CallGetApplication s))
    as (_ & new1 & Ht1 & Hno1).
  destruct (login ensureLoggedIn (called CallGetApplication s))
    as [rej s2]. cbn [snd] in Ht1. cbn [trace called] in Ht1.
  assert (Hlogin : forall st, st = s' -> trace st = trace s2 ->
            exists new,
              trace s' = trace s ++ new
              /\ forall key name version gameId,
                   In (CallNexusCreate key name version gameId) new ->
                   key <> "" /\ name = app_name /\ version = app_version
                   /\ exists a, parse_account (confidential_account s') = Ok a
                                /\ apiKey a = Some key).
  { intros st <- Ht. exists (CallGetApplication :: new1).
    rewrite Ht, Ht1, <- app_assoc. split; [reflexivity|].
    intros k n v g [H|H]; [discriminate|]. now apply Hno1 in H. }
  destruct rej as [e|]; [intros E; injection E as _ E; now apply (Hlogin s2)|].
  destruct (parse_account (confidential_account s2)) as [a'|e] eqn:Ha';
    [|intros E; injection E as _ E; now apply (Hlogin s2)].
  destruct (apiKey a') as [key|] eqn:Hk;
    [|intros E; injection E as _ E; now apply (Hlogin s2)].
  destruct (String.eqb key "") eqn:Hne; cbn [negb];
    [intros E; injection E as _ E; now apply (Hlogin s2)|].
  assert (Hkey : key <> "") by (intros ->; discriminate).
  destruct currentGame as [gameId|reason].
  - assert (Hcreated : forall st,
              st = s' -> confidential_account st = confidential_account s2 ->
              trace st = trace s2 ++ [CallCurrentGame;
                                      CallNexusCreate key app_name app_version
                                        gameId] ->
              exists new,
                trace s' = trace s ++ new
                /\ forall key name version gameId,
                     In (CallNexusCreate key name version gameId) new ->
                     key <> "" /\ name = app_name /\ version = app_version
                     /\ exists a,
                          parse_account (confidential_account s') = Ok a
                          /\ apiKey a = Some key).
    { intros st <- Hacc Ht.
      exists (CallGetApplication :: new1 ++
              [CallCurrentGame;
               CallNexusCreate key app_name app_version gameId]).
      rewrite Ht, Ht1, <- !app_assoc. split; [reflexivity|].
      intros k n v g [H|H]; [discriminate|].
      apply in_app_or in H as [H|H]; [now apply Hno1 in H|].
      destruct H as [H|[H|[]]]; [discriminate|].
      injection H as <- <- <- _. rewrite Hacc. eauto 6. }
    destruct (Nexus_create key app_name app_version gameId) as [c1|reason];
      intros E; injection E as _ E; apply (Hcreated _ E);
      cbn [confidential_account trace called]; try reflexivity;
      now rewrite <- app_assoc.
  - intros E. injection E as _ E. subst s'.
    exists (CallGetApplication :: new1 ++ [CallCurrentGame]).
    cbn [trace called]. rewrite Ht1, <- !app_assoc. split; [reflexivity|].
    intros k n v g [H|H]; [discriminate|].
    apply in_app_or in H as [H|H]; [now apply Hno1 in H|].
    destruct H as [H|[]]. discriminate.
Qed.

End Facts.

End NexusApiFacts.

(* ================================================================== *)
(** ** Properties of [createVortexApi] *)
(* ================================================================== *)

Module VortexApiFacts.
Import VortexApi.

Lemma lookup_assign (k k' : string) (v : value) (d : props) :
  lookup k' (assign k v d) =
  if String.eqb k k' then Some v else lookup k' d.
Proof.
  induction d as [|[k0 v0] d IH]; simpl.
  - reflexivity.
  - destruct (String.eqb k0 k) eqn:E0; simpl.
    + apply String.eqb_eq in E0. subst k0.
      now destruct (String.eqb k k').
    + rewrite IH. destruct (String.eqb k0 k') eqn:E1; [|reflexivity].
      apply String.eqb_eq in E1. subst k0.
      now rewrite String.eqb_sym, E0.
Qed.

Lemma lookup_not_in (k : string) (o : props) :
  ~ In k (map fst o) -> lookup k o = None.
Proof.
  induction o as [|[k0 v0] o IH]; simpl; [reflexivity|].
  intros H. destruct (String.eqb k0 k) eqn:E.
  - apply String.eqb_eq in E. subst k0. exfalso. auto.
  - apply IH. auto.
Qed.

Section Merge.

Variable skip : string -> bool.
Variable merged : string -> value -> value.

Lemma fold_merge_lookup (sps d : props) (k : string) :
  NoDup (map fst sps) ->
  lookup k (fold_left (merge_step skip merged) sps d) =
  match lookup k sps with
  | Some sv => if skip k then lookup k d else Some (merged k sv)
  | None => lookup k d
  end.
Proof.
  revert d. induction sps as [|[k0 sv0] sps IH]; intros d Hnd; simpl.
  - reflexivity.
  - inversion Hnd as [|? ? Hnot Hnd']; subst.
    rewrite (IH _ Hnd'). unfold merge_step. cbn [fst snd].
    destruct (String.eqb k0 k) eqn:E.
    + apply String.eqb_eq in E. subst k0.
      rewrite (lookup_not_in k sps Hnot).
      destruct (skip k); [reflexivity|].
      now rewrite lookup_assign, String.eqb_refl.
    + assert (Hd : lookup k (if skip k0 then d
                             else assign k0 (merged k0 sv0) d)
                   = lookup k d).
      { destruct (skip k0); [reflexivity|]. now rewrite lookup_assign, E. }
      rewrite Hd. reflexivity.
Qed.

End Merge.

Lemma fold_left_pointwise {A B : Type} (f g : A -> B -> A) (l : list B)
  (a a' : A) :
  (forall x y, f x y = g x y) -> a = a' ->
  fold_left f l a = fold_left g l a'.
Proof.
  intros H <-. revert a. induction l as [|b l IH]; intros a; simpl;
    [reflexivity|]. now rewrite H, IH.
Qed.

Lemma deepmerge_objects (tps sps : props) :
  deepmerge (VObj tps) (VObj sps) =
  VObj (fold_left
          (merge_step
             (fun k => propertyIsUnsafe (VObj tps) k || is_proto k)
             (fun k sv =>
                if has_own (VObj tps) k && isMergeableObject sv
                then deepmerge (get (VObj tps) k) sv else clone sv))
          sps
          (fold_left (merge_step is_proto (fun _ v => clone v)) tps [])).
Proof.
  cbn [deepmerge]. f_equal. apply fold_left_pointwise.
  - intros d [k sv]. unfold merge_step, set, is_proto. cbn [fst snd].
    destruct (propertyIsUnsafe (VObj tps) k); reflexivity.
  - apply fold_left_pointwise; [|reflexivity].
    intros d [k v]. reflexivity.
Qed.

(** The own property [k] of a merge of two objects. *)
Lemma deepmerge_lookup (tps sps : props) (k : string) :
  NoDup (map fst tps) -> NoDup (map fst sps) ->
  exists merged,
    deepmerge (VObj tps) (VObj sps) = VObj merged
    /\ lookup k merged =
       if String.eqb k "__proto__" then None
       else match lookup k sps with
            | Some sv =>
                if mem k tps
                then Some (if isMergeableObject sv
                           then deepmerge (get (VObj tps) k) sv
                           else clone sv)
                else if inherited k then None else Some (clone sv)
            | None => option_map clone (lookup k tps)
            end.
Proof.
  intros Ht Hs. rewrite deepmerge_objects. eexists. split; [reflexivity|].
  rewrite fold_merge_lookup by assumption.
  rewrite fold_merge_lookup by assumption.
  unfold is_proto, propertyIsUnsafe, has_own. cbn [lookup].
  destruct (String.eqb k "__proto__") eqn:Ep.
  - rewrite orb_true_r. destruct (lookup k sps), (lookup k tps); reflexivity.
  - rewrite orb_false_r. unfold mem.
    destruct (lookup k sps) as [sv|]; destruct (lookup k tps) as [tv|];
      cbn [negb andb option_map]; try reflexivity.
    + now rewrite andb_false_r.
    + rewrite andb_true_r. now destruct (inherited k).
Qed.


(** The mod ids [getMods] answers for: those the profile keeps a state
    for, installed or not, and the installed ones that do not name a
    member of [Object.prototype]; never [__proto__]. *)
Theorem getMods_ids (state : IState) (profile : IProfile) (id : string) :
  getActiveProfile state = Some profile ->
  NoDup (map fst (known profile)) ->
  NoDup (map fst (installed state profile)) ->
  exists answer,
    getMods state = VObj answer
    /\ mem id answer =
       negb (String.eqb id "__proto__")
       && (mem id (known profile)
           || mem id (installed state profile) && negb (inherited id)).
Proof.
  intros Hp Hk Hi. unfold getMods. rewrite Hp.
  destruct (deepmerge_lookup (known profile) (installed state profile) id
              Hk Hi) as (answer & Ha & Hl).
  exists answer. split; [exact Ha|]. unfold mem at 1. rewrite Hl.
  unfold mem.
  destruct (String.eqb id "__proto__"); [reflexivity|].
  destruct (lookup id (installed state profile)),
           (lookup id (known profile)); cbn [negb andb orb option_map];
    try reflexivity.
  now destruct (inherited id).
Qed.


End VortexApiFacts.

(* ------------------------------------------------------------------ *)
(** *** Examples for [getNexus] and [getMods] *)




Lemma getNexus_failure_keeps_cache_witness :
  let old := NexusApi.Client 7 (Some "old-key") in
  let s := NexusApi.State (VObj [("nexus", VObj [("APIKey", VStr "")])])
             (Some old) [] in
  NexusApi.nexusApi
    (snd (NexusApi.getNexus "Vortex" "1.9.0" None (inl "skyrim")
            NexusApi.sample_create s))
  = Some old.
Proof.
  refine (NexusApiFacts.getNexus_failure_keeps_cache "Vortex" "1.9.0" None
            (inl "skyrim") NexusApi.sample_create
            (NexusApi.State (VObj [("nexus", VObj [("APIKey", VStr "")])])
               (Some (NexusApi.Client 7 (Some "old-key"))) [])
            _ (NexusApi.RejectedWith NexusApi.NoApiKey) eq_refl _).
  intros c. discriminate.
Defined.

Lemma getNexus_creates_for_current_key_witness :
  exists new,
    NexusApi.trace
      (snd (NexusApi.sample_getNexus (NexusApi.State (VObj []) None [])))
    = [] ++ new
    /\ forall key name version gameId,
         In (NexusApi.CallNexusCreate key name version gameId) new ->
         key <> "" /\ name = "Vortex" /\ version = "1.9.0"
         /\ exists a,
              NexusApi.parse_account
                (NexusApi.confidential_account
                   (snd (NexusApi.sample_getNexus
                           (NexusApi.State (VObj []) None []))))
              = NexusApi.Ok a
              /\ NexusApi.apiKey a = Some key.
Proof.
  exact (NexusApiFacts.getNexus_creates_for_current_key "Vortex" "1.9.0"
           (Some NexusApi.sample_login) (inl "skyrim") NexusApi.sample_create
           (NexusApi.State (VObj []) None [])
           (snd (NexusApi.sample_getNexus (NexusApi.State (VObj []) None [])))
           (fst (NexusApi.sample_getNexus (NexusApi.State (VObj []) None [])))
           eq_refl).
Defined.

Lemma sample_distinct :
  NoDup (map fst (VortexApi.known VortexApi.sample_profile))
  /\ NoDup (map fst (VortexApi.installed VortexApi.sample_state
                       VortexApi.sample_profile)).
Proof.
  split; simpl;
    repeat (constructor; [simpl; intuition discriminate|]); constructor.
Defined.


Lemma getMods_ids_witness :
  exists answer,
    VortexApi.getMods VortexApi.sample_state = VObj answer
    /\ VortexApi.mem "toString" answer = false.
Proof.
  exact (VortexApiFacts.getMods_ids VortexApi.sample_state
           VortexApi.sample_profile "toString" eq_refl
           (proj1 sample_distinct) (proj2 sample_distinct)).
Defined.


(* ================================================================== *)
(** ** Properties of the startup *)
(* ================================================================== *)

Module ExtensionFacts.
Import Extension.

Lemma distinct_NoDup (l : list string) : distinct l = true -> NoDup l.
Proof.
  induction l as [|x l IH]; simpl; intros H; constructor.
  - apply andb_prop in H as [H _]. apply negb_true_iff in H.
    intros Hin. assert (E : existsb (String.eqb x) l = true).
    { apply existsb_exists. exists x. split; [exact Hin|].
      apply String.eqb_refl. }
    rewrite E in H. discriminate.
  - apply andb_prop in H as [_ H]. now apply IH.
Qed.

Lemma NoDup_map_Some (l : list string) :
  NoDup l -> NoDup (map (@Some string) l).
Proof.
  induction 1 as [|x l Hnot _ IH]; simpl; constructor; [|exact IH].
  intros Hin. apply in_map_iff in Hin as (y & E & Hin).
  injection E as ->. contradiction.
Qed.

(** What the startup callback leaves behind, whatever the world before. *)
Lemma once_world (pl : Path.platform) (fuel : nat) (w : world) :
  exists nexusPromise vortexPromise w',
    once pl (S (S fuel)) w =
      Some (Return (All (clock w) [nexusPromise; vortexPromise]), w')
    /\ nexusPromise =
       All (clock w) (map AwaitListen (seq (List.length (npcs w)) 26))
    /\ vortexPromise =
       All (clock w) (map AwaitListen (seq (List.length (npcs w) + 26) 4))
    /\ npcs w' =
       npcs w ++ map (nexus_endpoint pl) nexus_handlers
              ++ map (vortex_endpoint pl) vortex_handlers
    /\ logged w' = logged w /\ clock w' = clock w.
Proof.
  destruct (batch_world pl fuel "nexus"
              (handlers_from 0 nexus_handlers
               ++ [("middleware",
                    VObj (map (fun ks : string * argsSchema =>
                                 (fst ks, parse_of (snd ks)))
                            nexus_middleware))])
              VUndefined w eq_refl)
    as (w1 & Hr1 & Hn1 & _ & Hl1 & Hk1).
  destruct (batch_world pl fuel "." (handlers_from 50 vortex_handlers)
              VUndefined w1 eq_refl)
    as (w2 & Hr2 & Hn2 & _ & Hl2 & Hk2).
  eexists _, _, w2.
  split; [|split; [reflexivity|split; [|split; [|split]]]].
  - unfold once, async, bind.
    change createNexusApi
      with (VObj (handlers_from 0 nexus_handlers
                  ++ [("middleware",
                       VObj (map (fun ks : string * argsSchema =>
                                    (fst ks, parse_of (snd ks)))
                               nexus_middleware))])).
    rewrite Hr1.
    change createVortexApi with (VObj (handlers_from 50 vortex_handlers)).
    rewrite Hr2. unfold ret. now rewrite Hk2, Hk1.
  - rewrite ?Hk1, Hn1, length_app, length_map. reflexivity.
  - rewrite Hn2, Hn1, <- app_assoc. f_equal. f_equal.
    + destruct pl; reflexivity.
    + destruct pl; reflexivity.
  - now rewrite Hl2, Hl1.
  - now rewrite Hk2, Hk1.
Qed.

(** At startup the extension creates thirty endpoints, first those of the
    twenty-six handlers of the Nexus API, named "vortex", "nexus" and the
    handler, then those of the four handlers of the Vortex API, named
    "vortex" and the handler, each with the separator of the platform; a
    handler of the Nexus API carries the [parse] of its argument schema
    as middleware when the [middleware] map has an entry for it; nothing
    is logged. *)
Theorem startup_endpoints (pl : Path.platform) (fuel : nat) (w : world) :
  exists nexusPromise vortexPromise w',
    once pl (S (S fuel)) w =
      Some (Return (All (clock w) [nexusPromise; vortexPromise]), w')
    /\ npcs w' =
       npcs w ++ map (nexus_endpoint pl) nexus_handlers
              ++ map (vortex_endpoint pl) vortex_handlers
    /\ List.length (npcs w') = List.length (npcs w) + 30
    /\ logged w' = logged w.
Proof.
  destruct (once_world pl fuel w)
    as (p1 & p2 & w' & Hr & _ & _ & Hn & Hl & _).
  exists p1, p2, w'. split; [exact Hr|]. split; [exact Hn|].
  split; [|exact Hl]. now rewrite Hn, !length_app, !length_map.
Qed.

(** The thirty names the startup asks the transport to listen under are
    pairwise distinct, on either platform: the extension does not compete
    with itself for a name. *)
Theorem startup_names_distinct (pl : Path.platform) (fuel : nat)
  (w : world) :
  exists promise w' new,
    once pl (S (S fuel)) w = Some (Return promise, w')
    /\ npcs w' = npcs w ++ new
    /\ Forall (fun n => pending_name n <> None) new
    /\ NoDup (map pending_name new).
Proof.
  destruct (once_world pl fuel w)
    as (p1 & p2 & w' & Hr & _ & _ & Hn & _).
  eexists _, w', _. split; [exact Hr|]. split; [exact Hn|]. split.
  - apply Forall_forall. intros n Hin.
    apply in_app_or in Hin as [Hin|Hin];
      apply in_map_iff in Hin as (k & <- & _); discriminate.
  - rewrite map_app, !map_map.
    change (map (fun k => pending_name (nexus_endpoint pl k)) nexus_handlers
            ++ map (fun k => pending_name (vortex_endpoint pl k))
                 vortex_handlers)
      with (map (@Some string)
              (map (fun k : string =>
                      ("vortex" ++ String (Path.sep pl)
                                     ("nexus" ++ String (Path.sep pl) k))%string)
                 nexus_handlers
               ++ map (fun k : string =>
                         ("vortex" ++ String (Path.sep pl) k)%string)
                    vortex_handlers)).
    apply NoDup_map_Some, distinct_NoDup. destruct pl; reflexivity.
Qed.

(** Every entry of the [middleware] map of the Nexus API is in effect at
    startup: an endpoint is created whose name ends in the entry's key
    and which carries the entry's [parse] as middleware; of the
    twenty-six endpoints created for the Nexus API, those without
    middleware are the six whose handlers take no input. *)
Theorem nexus_middleware_attached (pl : Path.platform) (fuel : nat)
  (w : world) :
  exists promise w' nexus vortex,
    once pl (S (S fuel)) w = Some (Return promise, w')
    /\ npcs w' = npcs w ++ nexus ++ vortex
    /\ List.length nexus = 26 /\ List.length vortex = 4
    /\ Forall (fun ks : string * argsSchema =>
                 exists n,
                   In n nexus
                   /\ pending_name n
                      = Some ("vortex" ++ String (Path.sep pl)
                                ("nexus" ++ String (Path.sep pl) (fst ks)))%string
                   /\ npc_middleware n = Some (parse_of (snd ks)))
         nexus_middleware
    /\ map pending_name
         (filter (fun n => match npc_middleware n with
                           | Some _ => false
                           | None => true
                           end)
            nexus)
       = map (fun k : string =>
                Some ("vortex" ++ String (Path.sep pl)
                        ("nexus" ++ String (Path.sep pl) k))%string)
           ["getColorSchemes"; "getEndorsements"; "getGames";
            "getRateLimits"; "getTrackedMods"; "getValidationResult"].
Proof.
  destruct (once_world pl fuel w)
    as (p1 & p2 & w' & Hr & _ & _ & Hn & _).
  exists (All (clock w) [p1; p2]), w',
    (map (nexus_endpoint pl) nexus_handlers),
    (map (vortex_endpoint pl) vortex_handlers).
  split; [exact Hr|]. split; [exact Hn|].
  split; [reflexivity|]. split; [reflexivity|]. split; [|reflexivity].
  unfold nexus_middleware.
  repeat match goal with
         | |- Forall _ ((?k, _) :: _) =>
             apply Forall_cons;
             [exists (nexus_endpoint pl k); split;
              [apply in_map; simpl; tauto|split; reflexivity]|]
         end.
  apply Forall_nil.
Qed.

Lemma seq_split (a len i : nat) :
  i < len -> seq a len = seq a i ++ (a + i) :: seq (S (a + i)) (len - S i).
Proof.
  intros Hi. replace len with (i + S (len - S i)) at 1 by lia.
  now rewrite seq_app.
Qed.

Lemma promise_all_later (t time : nat) (sts : list promiseState) :
  Forall (later t) sts -> later t (promise_all time sts).
Proof.
  intros H. unfold promise_all.
  pose proof (first_rejection_later t sts H) as Hl.
  destruct (first_rejection sts) as [[t' e]|]; [exact Hl|].
  destruct (all_fulfilled time sts) as [[t1 vs]|]; exact I.
Qed.

(** Endpoints that were pending, are not the refused one and were not
    refused before it: their promises are no earlier rejection. *)
Lemma awaits_later (w : world) (eps : list nat) (ep : nat) (reason : value)
  (pre post : list (nat * settlement)) :
  (forall e, In e eps ->
     e <> ep
     /\ (exists n name, nth_error (npcs w) e = Some n /\
                        npc_state n = Pending name)
     /\ forall r, first_settlement pre e <> Some (Refuse r)) ->
  Forall (later (S (clock w + List.length pre)))
    (map (poll (run (pre ++ (ep, Refuse reason) :: post) w))
       (map AwaitListen eps)).
Proof.
  intros H. rewrite map_map. apply Forall_forall. intros st Hst.
  apply in_map_iff in Hst as (e & <- & Hin).
  destruct (H e Hin) as (Hne & (n & name & Hn & Hs) & Hacc).
  exact (sibling_later w ep e n name reason pre post Hn Hs Hne Hacc).
Qed.

(** An aggregate one of whose endpoints is refused first. *)
Lemma all_refused (w : world) (time : nat) (before after : list nat)
  (ep : nat) (n : npc) (name : string) (reason : value)
  (pre post : list (nat * settlement)) :
  nth_error (npcs w) ep = Some n -> npc_state n = Pending name ->
  first_settlement pre ep = None ->
  (forall e, In e (before ++ after) ->
     e <> ep
     /\ (exists n name, nth_error (npcs w) e = Some n /\
                        npc_state n = Pending name)
     /\ forall r, first_settlement pre e <> Some (Refuse r)) ->
  poll (run (pre ++ (ep, Refuse reason) :: post) w)
    (All time (map AwaitListen (before ++ ep :: after)))
  = RejectedAt (S (clock w + List.length pre)) (ListenError reason).
Proof.
  intros Hn Hs Hpre H. cbn [poll]. rewrite !map_app. cbn [map poll].
  rewrite (settled_at w ep n name (Refuse reason) pre post Hn Hs
             (first_settlement_none pre ep Hpre)).
  cbn [npc_state settled].
  apply promise_all_first_rejection; apply awaits_later; intros e Hin;
    apply H; apply in_or_app; auto.
Qed.

(** When the transport refuses one of the thirty names before refusing
    any other, the startup fails with that refusal at that instant,
    whichever namespace the name belongs to and whatever is settled
    later. *)
Theorem startup_first_refusal (pl : Path.platform) (fuel : nat) (w : world)
  (i : nat) (reason : value) (pre post : list (nat * settlement)) :
  i < 30 ->
  first_settlement pre (List.length (npcs w) + i) = None ->
  (forall j r, j < 30 ->
               first_settlement pre (List.length (npcs w) + j)
               <> Some (Refuse r)) ->
  exists promise w',
    once pl (S (S fuel)) w = Some (Return promise, w')
    /\ poll (run (pre ++ (List.length (npcs w) + i, Refuse reason) :: post) w')
         promise
       = RejectedAt (S (clock w + List.length pre)) (ListenError reason).
Proof.
  intros Hi Hpre Hacc.
  destruct (once_world pl fuel w)
    as (p1 & p2 & w' & Hr & -> & -> & Hn & _ & Hk).
  eexists _, w'. split; [exact Hr|].
  set (n0 := List.length (npcs w)) in *.
  set (sched := pre ++ (n0 + i, Refuse reason) :: post).
  assert (Hpend : forall e, n0 <= e < n0 + 30 ->
            exists n name, nth_error (npcs w') e = Some n /\
                           npc_state n = Pending name).
  { intros e He. rewrite Hn, nth_error_app2 by (fold n0; lia). fold n0.
    destruct (nth_error
                (map (nexus_endpoint pl) nexus_handlers
                 ++ map (vortex_endpoint pl) vortex_handlers) (e - n0))
      as [n|] eqn:E.
    - exists n. apply nth_error_In in E.
      apply in_app_or in E as [E|E];
        apply in_map_iff in E as (k & <- & _);
        eexists; (split; [reflexivity|reflexivity]).
    - apply nth_error_None in E.
      rewrite length_app, !length_map in E. simpl in E. lia. }
  assert (Hsib : forall e, n0 <= e < n0 + 30 -> e <> n0 + i ->
            e <> n0 + i
            /\ (exists n name, nth_error (npcs w') e = Some n /\
                               npc_state n = Pending name)
            /\ forall r, first_settlement pre e <> Some (Refuse r)).
  { intros e He Hne. split; [exact Hne|]. split; [now apply Hpend|].
    intros r. replace e with (n0 + (e - n0)) by lia. apply Hacc. lia. }
  destruct (Hpend (n0 + i)) as (n & name & Hni & Hsi); [lia|].
  rewrite <- Hk.
  destruct (Nat.lt_ge_cases i 26) as [Hlt|Hge].
  - (* a name of the Nexus API *)
    assert (Hsplit : seq n0 26 = seq n0 i ++ (n0 + i) :: seq (S (n0 + i)) (25 - i)).
    { replace 26 with (i + S (25 - i)) at 1 by lia. now rewrite seq_app. }
    cbn [poll map]. rewrite Hsplit.
    pose proof (all_refused w' (clock w') (seq n0 i) (seq (S (n0 + i)) (25 - i))
                  (n0 + i) n name reason pre post Hni Hsi Hpre) as H1.
    cbn [poll] in H1. fold sched in H1. rewrite H1.
    + apply (promise_all_first_rejection (clock w') _ _ []); [constructor|].
      constructor; [|constructor].
      apply promise_all_later, awaits_later.
      intros e Hin. apply in_seq in Hin. apply Hsib; lia.
    + intros e Hin. apply in_app_or in Hin as [Hin|Hin];
        apply in_seq in Hin; apply Hsib; lia.
  - (* a name of the Vortex API *)
    assert (Hsplit : seq (n0 + 26) 4 =
                     seq (n0 + 26) (i - 26) ++ (n0 + i)
                       :: seq (S (n0 + i)) (29 - i)).
    { rewrite (seq_split (n0 + 26) 4 (i - 26)) by lia.
      replace (n0 + 26 + (i - 26)) with (n0 + i) by lia.
      now replace (4 - S (i - 26)) with (29 - i) by lia. }
    cbn [poll map]. rewrite Hsplit.
    pose proof (all_refused w' (clock w') (seq (n0 + 26) (i - 26))
                  (seq (S (n0 + i)) (29 - i))
                  (n0 + i) n name reason pre post Hni Hsi Hpre) as H2.
    cbn [poll] in H2. fold sched in H2. rewrite H2.
    + apply (promise_all_first_rejection (clock w') _ _ [_]); [|constructor].
      constructor; [|constructor].
      apply promise_all_later, awaits_later.
      intros e Hin. apply in_seq in Hin. apply Hsib; lia.
    + intros e Hin. apply in_app_or in Hin as [Hin|Hin];
        apply in_seq in Hin; apply Hsib; lia.
Qed.

End ExtensionFacts.

Lemma startup_first_refusal_witness :
  exists promise w',
    Extension.once Path.win32 2 world0 = Some (Return promise, w')
    /\ poll (run ([(3, Accept)] ++ (List.length (npcs world0) + 27,
                                     Refuse (VStr "EADDRINUSE"))
                     :: [(0, Refuse (VStr "late"))]) w')
         promise
       = RejectedAt (S (clock world0 + List.length [(3, Accept)]))
           (ListenError (VStr "EADDRINUSE")).
Proof.
  assert (Hi : 27 < 30) by lia.
  assert (Hacc : forall j r, j < 30 ->
             first_settlement [(3, Accept)] (List.length (npcs world0) + j)
             <> Some (Refuse r)).
  { simpl. intros j r _.
    destruct j as [|[|[|[|j]]]]; discriminate. }
  exact (ExtensionFacts.startup_first_refusal Path.win32 0 world0 27
           (VStr "EADDRINUSE") [(3, Accept)] [(0, Refuse (VStr "late"))]
           Hi eq_refl Hacc).
Defined.
